(** * rvidmaker: the Reddit reader and the YouTube uploader

    A shallow embedding of [rvidmaker/readers/reddit.py] and
    [rvidmaker/uploaders/youtube.py], and the properties of the two modules
    that the specification states about them.

    Conventions of the embedding:
    - Python [int] is [Z]; Python [float] is an exact rational [Q] (the
      only float operations of the two modules are a subtraction, a division
      by the constant 3600, a product with a power of two or with an integer
      score, and comparisons);
    - Python [str] is [string];
    - an exception is a value of [exn]; a call returns, raises, or is still
      running when the script of its environment ends ([outcome]);
    - the file system, the credential store, the clock, the random generator
      and the network are an environment record of oracles; every call to
      one of them is recorded in the [log] of the state. *)

From Stdlib Require Import ZArith QArith String Ascii List Sorted Permutation Lia.
From stdpp Require Import gmap strings list fin_maps pretty.
From Equations Require Import Equations.
Import ListNotations.

Local Open Scope Z_scope.
Local Open Scope string_scope.

(** The character [34], written out because it delimits string literals. *)
Definition dquote : string := String (ascii_of_nat 34) EmptyString.

(** ** Exceptions, outcomes, events *)

(** The exception classes the two modules raise or catch. [OtherException]
    stands for any class that none of the [except] clauses names. *)
Inductive exn : Type :=
  | TypeError (msg : string)
  | ValueError (msg : string)
  | AuthException (msg : string)
  | UploadException (msg : string)
  | HttpError (status : Z) (content : string)
  | HttpLib2Error (msg : string)
  | IOError (msg : string)
  | PRAWException (msg : string)
  | RedditApiException (msg : string)
  | RedditVideoNotFound
  | NotImplementedError
  | OtherException (cls msg : string).

(** [str(e)], as far as the modules format it: the catch-all clause of the
    upload loop never sees an [HttpError]. *)
Definition exn_str (e : exn) : string :=
  match e with
  | TypeError m | ValueError m | AuthException m | UploadException m
  | HttpLib2Error m | IOError m | PRAWException m | RedditApiException m
  | OtherException _ m => m
  | HttpError st c => "<HttpError " +:+ pretty st +:+ ">"
  | RedditVideoNotFound | NotImplementedError => ""
  end.

Inductive outcome (A : Type) : Type :=
  | Returns (a : A)
  | Raises (e : exn)
  | Pending.
Arguments Returns {A} a.
Arguments Raises {A} e.
Arguments Pending {A}.

(** What the code asks of the world outside the process. *)
Inductive event : Type :=
  | EvIsFile (path : string)          (* os.path.isfile *)
  | EvExists (path : string)          (* os.path.exists *)
  | EvStorageGet (file : string)      (* Storage(file).get() *)
  | EvBuild                           (* apiclient.discovery.build *)
  | EvNextChunk                       (* insert_request.next_chunk() *)
  | EvRandom                          (* random.random() *)
  | EvPrint (msg : string)            (* print(error) *)
  | EvSleep (seconds : Q)             (* print of the delay, time.sleep *)
  | EvClock                           (* datetime.now() *)
  | EvListing (subreddit mode : string)   (* sub.hot / sub.top *)
  | EvHead (url : string).            (* requests.head *)

Definition is_network (e : event) : bool :=
  match e with
  | EvBuild | EvNextChunk | EvListing _ _ | EvHead _ => true
  | _ => false
  end.

Definition is_cred_check (e : event) : bool :=
  match e with
  | EvExists _ | EvStorageGet _ => true
  | _ => false
  end.

Definition is_sleep (e : event) : bool :=
  match e with EvSleep _ => true | _ => false end.

(** The state threaded through a call: the events so far, the number of
    random draws and the number of clock readings taken. *)
Record state : Type := mkState {
  log : list event;
  draws : nat;
  ticks : nat
}.

Definition state0 : state := mkState [] 0 0.

(** ** A state and exception monad *)

Definition M (A : Type) : Type := state -> outcome A * state.

Definition ret {A} (a : A) : M A := fun s => (Returns a, s).
Definition raise {A} (e : exn) : M A := fun s => (Raises e, s).
Definition pending {A} : M A := fun s => (Pending, s).

Definition bind {A B} (m : M A) (k : A -> M B) : M B :=
  fun s =>
    match m s with
    | (Returns a, s') => k a s'
    | (Raises e, s') => (Raises e, s')
    | (Pending, s') => (Pending, s')
    end.

(** [try: m except e: h e] *)
Definition try_except {A} (m : M A) (h : exn -> M A) : M A :=
  fun s =>
    match m s with
    | (Raises e, s') => h e s'
    | r => r
    end.

Definition emit (e : event) : M unit :=
  fun s => (Returns tt, mkState (log s ++ [e]) (draws s) (ticks s)).

Declare Scope py_scope.
Delimit Scope py_scope with py.
Notation "x <- m ;; k" := (bind m (fun x => k))
  (at level 100, m at next level, right associativity) : py_scope.
Notation "m ;;; k" := (bind m (fun _ => k))
  (at level 100, right associativity) : py_scope.
Local Open Scope py_scope.

(** ** Python values of the arguments of [upload] *)

Inductive pytype : Type :=
  | TStr | TInt | TBool | TFloat | TSet | TList | TNoneType | TException.

Inductive pyval : Type :=
  | PyStr (s : string)
  | PyInt (n : Z)
  | PyBool (b : bool)
  | PyFloat (q : Q)
  | PySet (elts : list string)
  | PyList (elts : list string)
  | PyNone
  | PyExc (e : exn).

(** [type(v)] *)
Definition type (v : pyval) : pytype :=
  match v with
  | PyStr _ => TStr
  | PyInt _ => TInt
  | PyBool _ => TBool
  | PyFloat _ => TFloat
  | PySet _ => TSet
  | PyList _ => TList
  | PyNone => TNoneType
  | PyExc _ => TException
  end.

Definition pytype_eqb (a b : pytype) : bool :=
  match a, b with
  | TStr, TStr | TInt, TInt | TBool, TBool | TFloat, TFloat
  | TSet, TSet | TList, TList | TNoneType, TNoneType
  | TException, TException => true
  | _, _ => false
  end.

(** ** youtube.py *)

Definition _VALID_PRIVACY_STATUSES : list string :=
  ["public"; "private"; "unlisted"].
Definition _MAX_RETRIES : Z := 10.
Definition _RETRIABLE_STATUS_CODES : list Z := [500; 502; 503; 504].
Definition _OAUTH_FILE : string := "rvidmaker-youtube-oauth2.json".

(** [e] is an instance of one of [_RETRIABLE_EXCEPTIONS],
    [(httplib2.HttpLib2Error, IOError)]. *)
Definition is_retriable_exception (e : exn) : bool :=
  match e with
  | HttpLib2Error _ | IOError _ => true
  | _ => false
  end.

(** [privacy_status in _VALID_PRIVACY_STATUSES]: a value that is not a
    string equals none of the three. *)
Definition in_valid_privacy_statuses (privacy_status : pyval) : bool :=
  match privacy_status with
  | PyStr ps => bool_decide (ps ∈ _VALID_PRIVACY_STATUSES)
  | _ => false
  end.

(** The message of the [ValueError] for the privacy status; the three
    values are quoted in it. *)
Definition privacy_status_msg : string :=
  "privacy_status must be either " +:+ dquote +:+ "public" +:+ dquote
  +:+ ", " +:+ dquote +:+ "private" +:+ dquote
  +:+ ", or " +:+ dquote +:+ "unlisted" +:+ dquote.

Record Credentials : Type := mkCreds { invalid : bool }.

(** The response of a finished upload: the value under ["id"] when the
    dictionary has that key, and the text [format] renders it as. *)
Record Response : Type := mkResponse {
  resp_id : option string;
  resp_repr : string
}.

(** One call of [insert_request.next_chunk()]: it returns
    [(status, response)], with [response] being [None] while the upload is
    in progress, or it raises. *)
Inductive chunk : Type :=
  | ChunkReturns (response : option Response)
  | ChunkRaises (e : exn).

Record yt_env : Type := mkYtEnv {
  isfile : string -> bool;
  path_exists : string -> bool;
  storage_get : string -> option Credentials;
  (* [build(...)]: [None] when it returns the service object *)
  build_raises : option exn;
  (* the successive outcomes of [next_chunk] on the request that
     [videos().insert(...)] returns *)
  insert_request : list chunk;
  (* the successive values of [random.random()] *)
  random_random : nat -> Q
}.

Section YouTubeUploader.

Variable env : yt_env.

Definition os_path_isfile (p : string) : M bool :=
  emit (EvIsFile p) ;;; ret (isfile env p).

Definition os_path_exists (p : string) : M bool :=
  emit (EvExists p) ;;; ret (path_exists env p).

Definition Storage_get (f : string) : M (option Credentials) :=
  emit (EvStorageGet f) ;;; ret (storage_get env f).

Definition random : M Q :=
  fun s => (Returns (random_random env (draws s)),
            mkState (log s ++ [EvRandom]) (S (draws s)) (ticks s)).

Definition time_sleep (seconds : Q) : M unit := emit (EvSleep seconds).

Definition print (msg : string) : M unit := emit (EvPrint msg).

Definition next_chunk (c : chunk) : M (option Response) :=
  emit EvNextChunk ;;;
  match c with
  | ChunkReturns r => ret r
  | ChunkRaises e => raise e
  end.

Definition build : M unit :=
  emit EvBuild ;;;
  match build_raises env with
  | None => ret tt
  | Some e => raise e
  end.

Definition _get_creds (oauth_file : string) : M (option Credentials) :=
  ex <- os_path_exists oauth_file ;;
  if ex then
    creds <- Storage_get oauth_file ;;
    match creds with
    | Some c => if negb (invalid c) then ret (Some c) else ret None
    | None => ret None
    end
  else ret None.

(** The body of the [try] statement of the loop, with its three [except]
    clauses. It returns [inl id] when the function returns [id], and
    [inr error] when control reaches the statement after the [try], with
    the new value of the variable [error]. *)
Definition try_next_chunk (c : chunk) (error : option string)
  : M (string + option string) :=
  try_except
    (response <- next_chunk c ;;
     match response with
     | Some r =>
         match resp_id r with
         | Some id => ret (inl id)
         | None =>
             raise (UploadException
                      ("The upload failed with an unexpected response: "
                       +:+ resp_repr r))
         end
     | None => ret (inr error)
     end)
    (fun e =>
       match e with
       | HttpError status content =>
           if bool_decide (status ∈ _RETRIABLE_STATUS_CODES) then
             ret (inr (Some ("A retriable HTTP error " +:+ pretty status
                             +:+ " occurred: " +:+ content)))
           else
             raise (UploadException
                      ("An HTTP error " +:+ pretty status
                       +:+ " occurred: " +:+ content))
       | _ =>
           if is_retriable_exception e then
             ret (inr (Some ("A retriable error occurred: " +:+ exn_str e)))
           else
             raise (UploadException
                      ("An unexpected error occurred: " +:+ exn_str e))
       end).

(** The statements after the [try], run when [error] is not [None]; the
    result is the new value of [retry]. *)
Definition backoff (error : string) (retry : Z) : M Z :=
  print error ;;;
  let retry := retry + 1 in
  if (_MAX_RETRIES <? retry)%Z then
    raise (UploadException "No longer attempting to retry")
  else
    let max_sleep := (2 ^ retry)%Z in
    r <- random ;;
    let sleep_seconds := (r * inject_Z max_sleep)%Q in
    time_sleep sleep_seconds ;;;
    ret retry.

(** [while response is None: ...], one iteration for each outcome of
    [next_chunk] in the script of the request. *)
Fixpoint upload_loop (request : list chunk) (error : option string)
  (retry : Z) : M string :=
  match request with
  | [] => pending
  | c :: request' =>
      r <- try_next_chunk c error ;;
      match r with
      | inl id => ret id
      | inr error' =>
          match error' with
          | Some msg =>
              retry' <- backoff msg retry ;;
              upload_loop request' error' retry'
          | None => upload_loop request' error' retry
          end
      end
  end.

Definition _resumable_upload (request : list chunk) : M string :=
  upload_loop request None 0.


Definition upload (path title desc tags category privacy_status : pyval)
  : M pyval :=
  if negb (pytype_eqb (type path) TStr) then
    raise (TypeError "path must be of type str")
  else if negb (pytype_eqb (type title) TStr) then
    raise (TypeError "title must be of type str")
  else if negb (pytype_eqb (type desc) TStr) then
    raise (TypeError "desc must be of type str")
  else if negb (pytype_eqb (type tags) TSet) then
    raise (TypeError "tags must be of type set")
  else if negb (pytype_eqb (type category) TInt) then
    raise (TypeError "category must be of type int")
  else
    match path, category with
    | PyStr p, PyInt cat =>
        f <- os_path_isfile p ;;
        if negb f then
          raise (ValueError (dquote +:+ p +:+ dquote +:+ " is not a file"))
        else if (cat <=? 0)%Z then
          raise (ValueError "category must be greater than 0")
        else if negb (in_valid_privacy_statuses privacy_status) then
          raise (ValueError privacy_status_msg)
        else
          creds <- _get_creds _OAUTH_FILE ;;
          match creds with
          | None =>
              ret (PyExc (AuthException
                            "Application has not been authenticated yet"))
          | Some _ =>
              build ;;;
              video_id <- _resumable_upload (insert_request env) ;;
              ret (PyStr video_id)
          end
    | _, _ =>
        (* not reached: [path] is a [str] and [category] an [int] here *)
        raise (TypeError "category must be of type int")
    end.

End YouTubeUploader.

(** ** reddit.py: the objects of PRAW *)

(** A node of a comment forest is a [praw.models.reddit.comment.Comment]
    or something else (a [MoreComments] placeholder). The author is [None]
    for a deleted account. *)
Inductive praw_comment : Type :=
  | PrawComment (author : option string) (body : string) (score : Z)
      (replies : list praw_node)
with praw_node : Type :=
  | Comment (c : praw_comment)
  | MoreComments.

Definition praw_author (c : praw_comment) : option string :=
  match c with PrawComment a _ _ _ => a end.
Definition praw_body (c : praw_comment) : string :=
  match c with PrawComment _ b _ _ => b end.
Definition praw_score (c : praw_comment) : Z :=
  match c with PrawComment _ _ s _ => s end.
Definition praw_replies (c : praw_comment) : list praw_node :=
  match c with PrawComment _ _ _ r => r end.

(** The [media] dictionary of a submission, by the keys the module reads. *)
Record reddit_video : Type := mkRedditVideo {
  is_gif : bool;
  duration : Z;
  fallback_url : string
}.

Record media_dict : Type := mkMedia {
  media_reddit_video : option reddit_video;   (* media["reddit_video"] *)
  media_type : option string                  (* media["type"] *)
}.

Record praw_submission : Type := mkSubmission {
  praw_title : string;
  praw_author_name : option string;           (* author.name, or author is None *)
  praw_selftext : string;
  praw_category : option string;
  praw_id : string;
  praw_url : string;
  praw_submission_score : Z;
  praw_over_18 : bool;
  praw_created_utc : Q;
  praw_media : option media_dict;
  praw_comments : list praw_node
}.

(** ** reddit.py: [RedditComment] *)

(** [RedditComment] objects are mutable and shared by reference: they live
    in a heap, and [_child] holds a reference. *)
Definition loc : Type := nat.

Record RedditComment : Type := mkComment {
  _author : option string;
  _text : string;
  _score : Z;
  _child : option loc
}.

Abbreviation heap := (gmap loc RedditComment).

(** [RedditComment(author, text, score)] *)
Definition RedditComment_init (author : option string) (text : string)
  (score : Z) (h : heap) : loc * heap :=
  let self := fresh (dom h) in
  (self, <[self := mkComment author text score None]> h).

Definition from_praw (praw_comment : praw_comment) (h : heap) : loc * heap :=
  let author := praw_author praw_comment in
  let text := praw_body praw_comment in
  let score := praw_score praw_comment in
  RedditComment_init author text score h.

(** [copy.copy(x)]: [None] is its own copy; an object is copied into a new
    object with the same attribute values. *)
Definition copy (x : option loc) (h : heap) : option loc * heap :=
  match x with
  | None => (None, h)
  | Some l =>
      match h !! l with
      | Some o => let l' := fresh (dom h) in (Some l', <[l' := o]> h)
      | None => (None, h)
      end
  end.

(** The property [child]: getter and setter. *)
Definition child_get (self : loc) (h : heap) : option loc * heap :=
  match h !! self with
  | Some o => copy (_child o) h
  | None => (None, h)
  end.

Definition child_set (self : loc) (child : option loc) (h : heap) : heap :=
  match h !! self with
  | Some o => <[self := mkComment (_author o) (_text o) (_score o) child]> h
  | None => h
  end.

Definition score_get (self : loc) (h : heap) : Z :=
  match h !! self with
  | Some o => _score o
  | None => 0
  end.

(** What a reader of the public attributes sees of a comment. *)
Definition comment_data : Type := (option string * string * Z)%type.

Definition data_of (o : RedditComment) : comment_data :=
  (_author o, _text o, _score o).

(** [chain h l ds]: following [_child] from the object at [l] visits
    objects with the data [ds], in this order, and ends at an object
    without child. *)
Inductive chain (h : heap) : loc -> list comment_data -> Prop :=
  | chain_last l o :
      h !! l = Some o -> _child o = None -> chain h l [data_of o]
  | chain_next l o l' ds :
      h !! l = Some o -> _child o = Some l' -> chain h l' ds ->
      chain h l (data_of o :: ds).

(** ** [list.sort(key=lambda x: x.score, reverse=True)]

    The sort of Python is stable, with [reverse=True] too: elements with
    equal keys keep their order. A stable sort is determined by this, so
    an insertion sort stands for it. *)
Section Sort.
Context {A : Type} (key : A -> Z).

Fixpoint insert_desc (x : A) (l : list A) : list A :=
  match l with
  | [] => [x]
  | y :: l' =>
      if (key x <? key y)%Z then y :: insert_desc x l'
      else x :: y :: l'
  end.

Fixpoint sort_desc (l : list A) : list A :=
  match l with
  | [] => []
  | x :: l' => insert_desc x (sort_desc l')
  end.
End Sort.

(** ** reddit.py: comment expansion *)

(** One iteration of the loop that looks for the highest-scored reply. *)
Definition best_reply_step (best_reply : option praw_comment)
  (reply : praw_node) : option praw_comment :=
  match reply with
  | MoreComments => best_reply
  | Comment r =>
      match best_reply with
      | None => Some r
      | Some b =>
          if (praw_score b <? praw_score r)%Z then Some r else best_reply
      end
  end.

Definition best_reply_of (replies : list praw_node) : option praw_comment :=
  fold_left best_reply_step replies None.

(** [a > n * q] for an integer [n] and a float [q]. *)
Definition gt_scaled (a n : Z) (q : Q) : bool :=
  if Qlt_le_dec (inject_Z n * q) (inject_Z a) then true else false.

Equations? _expand_comment (comment : loc) (praw_comment : praw_comment)
  (max_depth : Z) (percent_thres : Q) (h : heap) : heap
  by wf (Z.to_nat max_depth) lt :=
  _expand_comment comment praw_comment max_depth percent_thres h
    with Z_le_gt_dec max_depth 0 => {
    | left _ => h
    | right _ with best_reply_of (praw_replies praw_comment) => {
      | None => h
      | Some best_reply
          with gt_scaled (praw_score best_reply) (score_get comment h)
                 percent_thres => {
          | false => h
          | true =>
              let (child, h1) := from_praw best_reply h in
              let h2 := child_set comment (Some child) h1 in
              _expand_comment child best_reply (max_depth - 1)
                percent_thres h2 } } }.
Proof. lia. Qed.

(** [max(0, percent_thres)] *)
Definition max0Q (q : Q) : Q := if Qlt_le_dec 0 q then q else 0%Q.

Section GetComments.
Variables (max_depth : Z) (percent_thres : Q).

(** The first loop: the comments of the forest, sorted again after each
    [append]. *)
Definition collect_step (praw_comments : list praw_comment)
  (comment : praw_node) : list praw_comment :=
  match comment with
  | MoreComments => praw_comments
  | Comment c => sort_desc praw_score (praw_comments ++ [c])
  end.

(** The second loop; [comments] is the list of references built so far.
    The attributes [author] and [text] of the new comment are the ones
    that [from_praw] copied from [praw_comment]. *)
Fixpoint expand_loop (praw_comments : list praw_comment)
  (comments : list loc) (h : heap) : list loc * heap :=
  match praw_comments with
  | [] => (comments, h)
  | praw_comment :: rest =>
      let (comment, h1) := from_praw praw_comment h in
      match praw_author praw_comment with
      | None => expand_loop rest comments h1
      | Some _ =>
          if String.eqb (praw_body praw_comment) "[deleted]" then
            expand_loop rest comments h1
          else
            let h2 := _expand_comment comment praw_comment max_depth
                        percent_thres h1 in
            expand_loop rest (comments ++ [comment]) h2
      end
  end.
End GetComments.

Definition get_comments (article_comments : list praw_node)
  (max_comments max_depth : Z) (percent_thres : Q) (h : heap)
  : list loc * heap :=
  let max_comments := Z.max 1 max_comments in
  let max_depth := Z.max 0 max_depth in
  let percent_thres := max0Q percent_thres in
  let praw_comments := fold_left collect_step article_comments [] in
  expand_loop max_depth percent_thres
    (firstn (Z.to_nat max_comments) praw_comments) [] h.

(** ** The library functions that [get_video] calls

    [urllib.parse.urlsplit], [urljoin], [urlunsplit] and [os.path.splitext]
    of the Python standard library (CPython 3.11, POSIX paths), on ASCII
    text and without the cache of parse results. Two checks of [urlsplit]
    are outside this model: the one of a non-ASCII host, and the one of the
    address between the brackets of a host that has both brackets. *)

Fixpoint str_contains (c : ascii) (s : string) : bool :=
  match s with
  | EmptyString => false
  | String a s' => if Ascii.eqb a c then true else str_contains c s'
  end.

(** [s.split(c, 1)] for [c in s]: the text before and after the first [c]. *)
Fixpoint str_partition (c : ascii) (s : string) : option (string * string) :=
  match s with
  | EmptyString => None
  | String a s' =>
      if Ascii.eqb a c then Some (EmptyString, s')
      else match str_partition c s' with
           | Some (x, y) => Some (String a x, y)
           | None => None
           end
  end.

(** The text before and after the last [c]. *)
Fixpoint str_rpartition (c : ascii) (s : string) : option (string * string) :=
  match s with
  | EmptyString => None
  | String a s' =>
      match str_rpartition c s' with
      | Some (x, y) => Some (String a x, y)
      | None => if Ascii.eqb a c then Some (EmptyString, s') else None
      end
  end.

(** [s.split(c)] *)
Fixpoint str_split (c : ascii) (s : string) : list string :=
  match s with
  | EmptyString => [EmptyString]
  | String a s' =>
      if Ascii.eqb a c then EmptyString :: str_split c s'
      else match str_split c s' with
           | x :: xs => String a x :: xs
           | [] => [String a EmptyString]
           end
  end.

(** [sep.join(l)] *)
Fixpoint str_join (sep : string) (l : list string) : string :=
  match l with
  | [] => EmptyString
  | [x] => x
  | x :: l' => x +:+ sep +:+ str_join sep l'
  end.

Fixpoint str_forall (p : ascii -> bool) (s : string) : bool :=
  match s with
  | EmptyString => true
  | String a s' => p a && str_forall p s'
  end.

Fixpoint str_filter (p : ascii -> bool) (s : string) : string :=
  match s with
  | EmptyString => EmptyString
  | String a s' => if p a then String a (str_filter p s') else str_filter p s'
  end.

Fixpoint str_map (f : ascii -> ascii) (s : string) : string :=
  match s with
  | EmptyString => EmptyString
  | String a s' => String (f a) (str_map f s')
  end.

(** The longest prefix without a character satisfying [p], and the rest. *)
Fixpoint str_break (p : ascii -> bool) (s : string) : string * string :=
  match s with
  | EmptyString => (EmptyString, EmptyString)
  | String a s' =>
      if p a then (EmptyString, s)
      else let (x, y) := str_break p s' in (String a x, y)
  end.

Definition in_range (lo hi : nat) (a : ascii) : bool :=
  let n := nat_of_ascii a in (lo <=? n)%nat && (n <=? hi)%nat.

Definition is_upper (a : ascii) : bool := in_range 65 90 a.
Definition is_lower (a : ascii) : bool := in_range 97 122 a.
Definition is_digit (a : ascii) : bool := in_range 48 57 a.

Definition to_lower (a : ascii) : ascii :=
  if is_upper a then ascii_of_nat (nat_of_ascii a + 32) else a.

(** [scheme_chars]: the letters, the digits and ["+-."]. *)
Definition scheme_char (a : ascii) : bool :=
  is_upper a || is_lower a || is_digit a || str_contains a "+-.".

(** [_UNSAFE_URL_BYTES_TO_REMOVE]: tab, carriage return, line feed. *)
Definition unsafe_byte (a : ascii) : bool :=
  let n := nat_of_ascii a in
  (n =? 9)%nat || (n =? 10)%nat || (n =? 13)%nat.

(** [_WHATWG_C0_CONTROL_OR_SPACE]: the characters up to the space. *)
Definition c0_control_or_space (a : ascii) : bool :=
  (nat_of_ascii a <=? 32)%nat.

Fixpoint str_lstrip (p : ascii -> bool) (s : string) : string :=
  match s with
  | EmptyString => EmptyString
  | String a s' => if p a then str_lstrip p s' else s
  end.

Fixpoint str_rstrip (p : ascii -> bool) (s : string) : string :=
  match s with
  | EmptyString => EmptyString
  | String a s' =>
      match str_rstrip p s' with
      | EmptyString => if p a then EmptyString else String a EmptyString
      | r => String a r
      end
  end.

Definition uses_relative : list string :=
  [""; "ftp"; "http"; "gopher"; "nntp"; "imap"; "wais"; "file"; "https";
   "shttp"; "mms"; "prospero"; "rtsp"; "rtspu"; "sftp"; "svn"; "svn+ssh";
   "ws"; "wss"].

Definition uses_netloc : list string :=
  [""; "ftp"; "http"; "gopher"; "nntp"; "telnet"; "imap"; "wais"; "file";
   "mms"; "https"; "shttp"; "snews"; "prospero"; "rtsp"; "rtspu"; "rsync";
   "svn"; "svn+ssh"; "sftp"; "nfs"; "git"; "git+ssh"; "ws"; "wss"].

Definition uses_params : list string :=
  [""; "ftp"; "hdl"; "prospero"; "http"; "imap"; "https"; "shttp"; "rtsp";
   "rtspu"; "sip"; "sips"; "mms"; "sftp"; "tel"].

(** The five components of [urlsplit], the six of [urlparse] ([params] is
    empty for [urlsplit]). *)
Record url_parts : Type := mkUrl {
  u_scheme : string;
  u_netloc : string;
  u_path : string;
  u_params : string;
  u_query : string;
  u_fragment : string
}.

Definition str_empty (s : string) : bool :=
  match s with EmptyString => true | _ => false end.

Definition starts_with_2slash (s : string) : bool :=
  match s with
  | String a (String b _) => Ascii.eqb a "/" && Ascii.eqb b "/"
  | _ => false
  end.

Definition starts_with_slash (s : string) : bool :=
  match s with
  | String a _ => Ascii.eqb a "/"
  | _ => false
  end.

Definition urlsplit (url scheme : string) : exn + url_parts :=
  let url := str_lstrip c0_control_or_space url in
  let scheme := str_rstrip c0_control_or_space
                  (str_lstrip c0_control_or_space scheme) in
  let url := str_filter (fun a => negb (unsafe_byte a)) url in
  let scheme := str_filter (fun a => negb (unsafe_byte a)) scheme in
  let '(scheme, url) :=
    match str_partition ":" url with
    | Some (String a pre, rest) =>
        if (is_upper a || is_lower a)
           && str_forall scheme_char (String a pre)
        then (str_map to_lower (String a pre), rest)
        else (scheme, url)
    | _ => (scheme, url)
    end in
  let '(netloc, url) :=
    if starts_with_2slash url then
      match url with
      | String _ (String _ rest) =>
          str_break (fun a => str_contains a "/?#") rest
      | _ => (EmptyString, url)
      end
    else (EmptyString, url) in
  if xorb (str_contains "[" netloc) (str_contains "]" netloc) then
    inl (ValueError "Invalid IPv6 URL")
  else
    let '(url, fragment) :=
      match str_partition "#" url with
      | Some (u, f) => (u, f)
      | None => (url, EmptyString)
      end in
    let '(url, query) :=
      match str_partition "?" url with
      | Some (u, q) => (u, q)
      | None => (url, EmptyString)
      end in
    inr (mkUrl scheme netloc url EmptyString query fragment).

(** [_splitparams] *)
Definition _splitparams (url : string) : string * string :=
  match str_rpartition "/" url with
  | Some (dir, base) =>
      match str_partition ";" base with
      | Some (b, params) => (dir +:+ "/" +:+ b, params)
      | None => (url, EmptyString)
      end
  | None =>
      match str_partition ";" url with
      | Some (u, params) => (u, params)
      | None => (url, EmptyString)
      end
  end.

Definition urlparse (url scheme : string) : exn + url_parts :=
  match urlsplit url scheme with
  | inl e => inl e
  | inr r =>
      if bool_decide (u_scheme r ∈ uses_params) && str_contains ";" (u_path r)
      then
        let (url, params) := _splitparams (u_path r) in
        inr (mkUrl (u_scheme r) (u_netloc r) url params (u_query r)
               (u_fragment r))
      else inr r
  end.

Definition urlunsplit (r : url_parts) : string :=
  let url := u_path r in
  let url :=
    if negb (str_empty (u_netloc r))
       || (negb (str_empty (u_scheme r))
           && bool_decide (u_scheme r ∈ uses_netloc)
           && negb (starts_with_2slash url))
    then
      let url :=
        if negb (str_empty url) && negb (starts_with_slash url)
        then "/" +:+ url else url in
      "//" +:+ u_netloc r +:+ url
    else url in
  let url :=
    if negb (str_empty (u_scheme r)) then u_scheme r +:+ ":" +:+ url
    else url in
  let url :=
    if negb (str_empty (u_query r)) then url +:+ "?" +:+ u_query r
    else url in
  if negb (str_empty (u_fragment r)) then url +:+ "#" +:+ u_fragment r
  else url.

Definition urlunparse (r : url_parts) : string :=
  let url :=
    if negb (str_empty (u_params r)) then u_path r +:+ ";" +:+ u_params r
    else u_path r in
  urlunsplit (mkUrl (u_scheme r) (u_netloc r) url EmptyString (u_query r)
                (u_fragment r)).

(** The loop of [urljoin] that resolves ["."] and [".."]. *)
Fixpoint resolve_segments (segments resolved_path : list string)
  : list string :=
  match segments with
  | [] => resolved_path
  | seg :: rest =>
      if String.eqb seg ".." then
        resolve_segments rest (removelast resolved_path)
      else if String.eqb seg "." then resolve_segments rest resolved_path
      else resolve_segments rest (resolved_path ++ [seg])%list
  end.

(** [segments[1:-1] = filter(None, segments[1:-1])] *)
Definition filter_inner (segments : list string) : list string :=
  match segments with
  | first :: (_ :: _) as rest =>
      (first :: List.filter (fun s => negb (str_empty s)) (removelast rest)
         ++ [List.last rest EmptyString])%list
  | _ => segments
  end.

Definition urljoin (base url : string) : exn + string :=
  if str_empty base then inr url
  else if str_empty url then inr base
  else
    match urlparse base EmptyString with
    | inl e => inl e
    | inr b =>
        match urlparse url (u_scheme b) with
        | inl e => inl e
        | inr u =>
            if negb (String.eqb (u_scheme u) (u_scheme b))
               || negb (bool_decide (u_scheme u ∈ uses_relative))
            then inr url
            else if bool_decide (u_scheme u ∈ uses_netloc)
                    && negb (str_empty (u_netloc u))
            then inr (urlunparse u)
            else
              let netloc :=
                if bool_decide (u_scheme u ∈ uses_netloc) then u_netloc b
                else u_netloc u in
              if str_empty (u_path u) && str_empty (u_params u) then
                let query :=
                  if str_empty (u_query u) then u_query b else u_query u in
                inr (urlunparse (mkUrl (u_scheme u) netloc (u_path b)
                                   (u_params b) query (u_fragment u)))
              else
                let base_parts := str_split "/" (u_path b) in
                let base_parts :=
                  if negb (str_empty (List.last base_parts EmptyString))
                  then removelast base_parts else base_parts in
                let segments :=
                  if starts_with_slash (u_path u)
                  then str_split "/" (u_path u)
                  else filter_inner (base_parts ++ str_split "/" (u_path u))%list in
                let resolved_path := resolve_segments segments [] in
                let resolved_path :=
                  let l := List.last segments EmptyString in
                  if String.eqb l "." || String.eqb l ".."
                  then (resolved_path ++ [EmptyString])%list else resolved_path in
                let path := str_join "/" resolved_path in
                let path := if str_empty path then "/" else path in
                inr (urlunparse (mkUrl (u_scheme u) netloc path (u_params u)
                                   (u_query u) (u_fragment u)))
        end
    end.

(** [os.path.splitext(p)[1]]: the extension starts at the last dot of the
    last path component, unless only dots precede it there. *)
Definition splitext_ext (p : string) : string :=
  let name :=
    match str_rpartition "/" p with
    | Some (_, n) => n
    | None => p
    end in
  match str_rpartition "." name with
  | Some (stem, ext) =>
      if str_forall (fun a => Ascii.eqb a ".") stem then EmptyString
      else "." +:+ ext
  | None => EmptyString
  end.

(** ** reddit.py: [RedditArticle] *)

(** [RedditVideoRef(title, author, video_url, audio_url, duration)] of
    [rvidmaker.videos], by the arguments of its constructor. *)
Record RedditVideoRef : Type := mkVideoRef {
  ref_title : string;
  ref_author : option string;
  ref_video_url : string;
  ref_audio_url : option string;
  ref_duration : Q
}.

Record RedditArticle : Type := mkArticle {
  art_article : praw_submission;      (* self._article *)
  art_title : string;                 (* self.title *)
  art_author : option string;         (* self._author *)
  art_text : string;                  (* self._text *)
  art_category : option string;       (* self._category *)
  art_id : string;                    (* self._id *)
  art_url : string;                   (* self._url *)
  art_score : Z;                      (* self._score *)
  art_nsfw : bool;                    (* self._nsfw *)
  art_time_created : Q;               (* self._time_created *)
  art_media : option media_dict       (* self._media *)
}.

(** [RedditArticle(praw_article)] *)
Definition RedditArticle_init (praw_article : praw_submission)
  : RedditArticle :=
  mkArticle praw_article (praw_title praw_article)
    (praw_author_name praw_article) (praw_selftext praw_article)
    (praw_category praw_article) (praw_id praw_article)
    (praw_url praw_article) (praw_submission_score praw_article)
    (praw_over_18 praw_article) (praw_created_utc praw_article)
    (praw_media praw_article).

(** A listing: the call raises, or it returns an iterable that yields
    submissions and then ends or raises. *)
Inductive listing : Type :=
  | ListingRaises (e : exn)
  | ListingYields (arts : list praw_submission) (then_raises : option exn).

Record reddit_env : Type := mkRedditEnv {
  (* [reddit.subreddit(s).hot(limit=l)] *)
  sub_hot : string -> option Z -> listing;
  (* [reddit.subreddit(s).top(time_filter=t, limit=l)] *)
  sub_top : string -> string -> option Z -> listing;
  (* [requests.head(url)]: the status code, or the exception raised *)
  head_status : string -> exn + Z;
  (* the successive values of [datetime.now().timestamp()] *)
  clock : nat -> Q
}.

Definition VALID_TIME_FILTERS : list string :=
  ["all"; "day"; "hour"; "month"; "week"; "year"].

(** [str(VALID_TIME_FILTERS)], the text of the tuple. *)
Definition VALID_TIME_FILTERS_str : string :=
  "('all', 'day', 'hour', 'month', 'week', 'year')".

Definition hours_between (curtime time_created : Q) : Q :=
  ((curtime - time_created) / inject_Z (60 * 60))%Q.

Definition has_video (self : RedditArticle)
  (min_duration max_duration : option Z) (include_youtube : bool) : bool :=
  match art_media self with
  | Some media =>
      match media_reddit_video media with
      | Some reddit_video =>
          if negb (is_gif reddit_video) then
            let dur := duration reddit_video in
            let dur_valid :=
              match max_duration with
              | None => true
              | Some mx => (dur <=? mx)%Z
              end
              && match min_duration with
                 | None => true
                 | Some mn => (mn <=? dur)%Z
                 end in
            if dur_valid then true else false
          else false
      | None =>
          match media_type media with
          | Some ty =>
              if String.eqb ty "youtube.com" && include_youtube then true
              else false
          | None => false
          end
      end
  | None => false
  end.

(** The audio URL that [get_video] derives from the fallback URL. *)
Definition audio_url_of (video_url : string) : exn + string :=
  match urlsplit video_url EmptyString with
  | inl e => inl e
  | inr audio_url =>
      let audio_url_path := u_path audio_url in
      let audio_ext := splitext_ext audio_url_path in
      let audio_basename :=
        if String.eqb audio_ext ".mp4" then "DASH_audio.mp4" else "audio" in
      match urljoin audio_url_path audio_basename with
      | inl e => inl e
      | inr joined =>
          inr (urlunsplit (mkUrl (u_scheme audio_url) (u_netloc audio_url)
                             joined EmptyString EmptyString EmptyString))
      end
  end.

Definition norm_limit (limit : option Z) : option Z :=
  match limit with
  | None => None
  | Some 0%Z => None
  | Some l => Some (Z.max 1 l)
  end.

Section RedditReader.

Variable env : reddit_env.

Definition datetime_now : M Q :=
  fun s => (Returns (clock env (ticks s)),
            mkState (log s ++ [EvClock]) (draws s) (S (ticks s))).

(** The property [age]. *)
Definition age (self : RedditArticle) : M Q :=
  curtime <- datetime_now ;;
  ret (hours_between curtime (art_time_created self)).

Definition requests_head (url : string) : M Z :=
  emit (EvHead url) ;;;
  match head_status env url with
  | inl e => raise e
  | inr status => ret status
  end.

Definition get_video (self : RedditArticle) : M RedditVideoRef :=
  if negb (has_video self None None true) then raise RedditVideoNotFound
  else
    match art_media self with
    | None => raise (TypeError "argument of type 'NoneType' is not iterable")
    | Some media =>
        match media_reddit_video media with
        | Some reddit_video =>
            let duration := inject_Z (duration reddit_video) in
            let video_url := fallback_url reddit_video in
            match audio_url_of video_url with
            | inl e => raise e
            | inr audio_url =>
                status_code <- requests_head audio_url ;;
                let audio_url :=
                  if negb (status_code =? 200)%Z then None
                  else Some audio_url in
                ret (mkVideoRef (art_title self) (art_author self)
                       video_url audio_url duration)
            end
        | None => raise NotImplementedError
        end
    end.

(** The loop of [_filter_articles]; [filtered] is the list built so far. *)
Fixpoint filter_loop (articles filtered : list RedditArticle)
  (min_score : option Z) (min_age : option Q) : M (list RedditArticle) :=
  match articles with
  | [] => ret filtered
  | art :: rest =>
      let check_age :=
        match min_age with
        | Some ma =>
            a <- age art ;;
            if Qlt_le_dec a ma then filter_loop rest filtered min_score min_age
            else filter_loop rest (filtered ++ [art]) min_score min_age
        | None => filter_loop rest (filtered ++ [art]) min_score min_age
        end in
      match min_score with
      | Some ms =>
          if (art_score art <? ms)%Z
          then filter_loop rest filtered min_score min_age
          else check_age
      | None => check_age
      end
  end.

Definition _filter_articles (articles : list RedditArticle)
  (min_score : option Z) (min_age : option Q) : M (list RedditArticle) :=
  filter_loop articles [] min_score min_age.

(** The call of the listing inside [try], its [except] clause, and the
    list comprehension over the iterable. *)
Definition fetch (mode : string) (subreddit : string) (l : listing)
  : M (list RedditArticle) :=
  raw_articles <-
    try_except
      (emit (EvListing subreddit mode) ;;;
       match l with
       | ListingRaises e => raise e
       | ListingYields arts r => ret (arts, r)
       end)
      (fun e =>
         match e with
         | PRAWException msg => raise (RedditApiException msg)
         | _ => raise e
         end) ;;
  match snd raw_articles with
  | Some e => raise e
  | None => ret (map RedditArticle_init (fst raw_articles))
  end.

Definition get_hot_articles (subreddit : string) (limit : option Z)
  (min_score : option Z) (min_age : option Q) : M (list RedditArticle) :=
  let limit := norm_limit limit in
  unfiltered <- fetch "hot" subreddit (sub_hot env subreddit limit) ;;
  filtered <- _filter_articles unfiltered min_score min_age ;;
  ret (sort_desc art_score filtered).

Definition get_top_articles (subreddit time_filter : string)
  (limit : option Z) (min_score : option Z) (min_age : option Q)
  : M (list RedditArticle) :=
  if negb (bool_decide (time_filter ∈ VALID_TIME_FILTERS)) then
    raise (RedditApiException
             ("time_filter must be one of " +:+ VALID_TIME_FILTERS_str))
  else
    let limit := norm_limit limit in
    unfiltered <-
      fetch "top" subreddit (sub_top env subreddit time_filter limit) ;;
    filtered <- _filter_articles unfiltered min_score min_age ;;
    ret (sort_desc art_score filtered).

End RedditReader.

(** ** reddit.py: [_get_random_path]

    [os.path.join] of two components (POSIX). [random_string(10)] of
    [rvidmaker.utils] is not part of the two modules: its successive
    values are a parameter, and [path_exists] is the file system. *)

Fixpoint ends_with_slash (s : string) : bool :=
  match s with
  | EmptyString => false
  | String a EmptyString => Ascii.eqb a "/"
  | String _ s' => ends_with_slash s'
  end.

Definition os_path_join (a b : string) : string :=
  if starts_with_slash b then b
  else if str_empty a || ends_with_slash a then a +:+ b
  else a +:+ "/" +:+ b.

(** [while True: ...], one iteration for each value of [random_string]. *)
Fixpoint _get_random_path (path_exists : string -> bool)
  (random_strings : list string) (root ext : string) : M string :=
  match random_strings with
  | [] => pending
  | rand_str :: random_strings' =>
      let path := os_path_join root (rand_str +:+ "." +:+ ext) in
      emit (EvExists path) ;;;
      if negb (path_exists path) then ret path
      else _get_random_path path_exists random_strings' root ext
  end.

(** ** Vocabulary of the statements *)

(** The state after the events [es]. *)
Definition add_log (s : state) (es : list event) : state :=
  mkState (log s ++ es) (draws s) (ticks s).

(** The durations of the sleeps of a log, in order. *)
Fixpoint sleeps (l : list event) : list Q :=
  match l with
  | [] => []
  | EvSleep q :: l' => q :: sleeps l'
  | _ :: l' => sleeps l'
  end.

Definition type_error_messages : list string :=
  ["path must be of type str"; "title must be of type str";
   "desc must be of type str"; "tags must be of type set";
   "category must be of type int"].

(** A fault that the upload loop retries: a transport fault, or an HTTP
    fault with one of the retriable status codes. *)
Definition retriable_fault (c : chunk) : bool :=
  match c with
  | ChunkRaises (HttpError status _) =>
      bool_decide (status ∈ _RETRIABLE_STATUS_CODES)
  | ChunkRaises e => is_retriable_exception e
  | ChunkReturns _ => false
  end.

(** The diagnostic that the loop keeps in [error] for such a fault. *)
Definition fault_message (c : chunk) : string :=
  match c with
  | ChunkRaises (HttpError status content) =>
      "A retriable HTTP error " +:+ pretty status +:+ " occurred: "
      +:+ content
  | ChunkRaises e => "A retriable error occurred: " +:+ exn_str e
  | ChunkReturns _ => ""
  end.

(** The state after the [retry]-th backoff. *)
Definition after_backoff (env : yt_env) (c : chunk) (retry : Z) (s : state)
  : state :=
  mkState
    (log s ++ [EvNextChunk; EvPrint (fault_message c); EvRandom;
               EvSleep (random_random env (draws s) * inject_Z (2 ^ retry))])
    (S (draws s)) (ticks s).

Definition retries_exhausted : exn :=
  UploadException "No longer attempting to retry".

(** There is no credential file, no stored credential, or the stored one
    is invalid. *)
Definition no_valid_credential (env : yt_env) : Prop :=
  path_exists env _OAUTH_FILE = false
  \/ storage_get env _OAUTH_FILE = None
  \/ exists c, storage_get env _OAUTH_FILE = Some c /\ invalid c = true.

(** The order of a listing: a later element has no higher key. *)
Definition desc {A : Type} (key : A -> Z) (a b : A) : Prop :=
  (key b <= key a)%Z.

(** The elements of a list that have the key [k], in their order. *)
Definition with_key {A : Type} (key : A -> Z) (k : Z) (l : list A) : list A :=
  List.filter (fun a => (key a =? k)%Z) l.

(** What both listings do once the time filter is accepted. *)
Definition listing_of (env : reddit_env) (mode subreddit : string)
  (l : listing) (min_score : option Z) (min_age : option Q)
  : M (list RedditArticle) :=
  (unfiltered <- fetch mode subreddit l ;;
   filtered <- _filter_articles env unfiltered min_score min_age ;;
   ret (sort_desc art_score filtered))%py.

(** The characters of a host name and of a path segment in the statement
    about the audio URL: letters, digits, and the characters of ["-_."]. *)
Definition seg_char (a : ascii) : bool :=
  is_upper a || is_lower a || is_digit a || str_contains a "-_.".

(** A path segment: not empty, and neither ["."] nor [".."]. *)
Definition good_segment (s : string) : bool :=
  negb (str_empty s) && str_forall seg_char s
  && negb (String.eqb s ".") && negb (String.eqb s "..").

(** The path with the segments [segs], each after a slash. *)
Fixpoint dir_path (segs : list string) : string :=
  match segs with
  | [] => EmptyString
  | seg :: segs' => String "/" (seg +:+ dir_path segs')
  end.

(** What [from_praw] copies of a PRAW comment. *)
Definition praw_data (c : praw_comment) : comment_data :=
  (praw_author c, praw_body c, praw_score c).

(** The comments among the nodes of a forest, in their order. *)
Fixpoint comments_of (nodes : list praw_node) : list praw_comment :=
  match nodes with
  | [] => []
  | Comment c :: nodes' => c :: comments_of nodes'
  | MoreComments :: nodes' => comments_of nodes'
  end.




(** ** Concrete worlds *)

Definition video_file : string := "video.mp4".

Definition fault503 : chunk := ChunkRaises (HttpError 503 "unavailable").
Definition success_abc123 : chunk :=
  ChunkReturns (Some (mkResponse (Some "abc123") "{'id': 'abc123'}")).

(** One file, a valid credential, a request that fails three times. *)
Definition env_retry : yt_env :=
  mkYtEnv (fun p => String.eqb p video_file) (fun _ => true)
    (fun _ => Some (mkCreds false)) None
    [fault503; fault503; fault503; success_abc123]
    (fun _ => (1 # 2)%Q).

(** The same file, and no credential file. *)
Definition env_noauth : yt_env :=
  mkYtEnv (fun p => String.eqb p video_file) (fun _ => false)
    (fun _ => None) None [success_abc123] (fun _ => 0%Q).

(** Three submissions: a native video, a YouTube embed, a text post. The
    clock starts ten hours after the first two were posted and advances by
    a second at each reading. *)
Definition native_video : reddit_video :=
  mkRedditVideo false 10 "https://v.redd.it/abc123/DASH_240.mp4?source=x".

Definition sub_video : praw_submission :=
  mkSubmission "A video" (Some "alice") "" None "v1"
    "https://v.redd.it/abc123" 5 false 0
    (Some (mkMedia (Some native_video) None)) [].

Definition sub_youtube : praw_submission :=
  mkSubmission "An embed" (Some "bob") "" None "y1"
    "https://youtu.be/xyz" 9 false 0
    (Some (mkMedia None (Some "youtube.com"))) [].

Definition sub_text : praw_submission :=
  mkSubmission "A text" None "hello" None "t1"
    "https://reddit.com/t1" 5 false (inject_Z 36000) None [].

Definition sub_low : praw_submission :=
  mkSubmission "Low" (Some "carol") "" None "l1"
    "https://reddit.com/l1" 1 false 0 None [].

Definition env_reddit : reddit_env :=
  mkRedditEnv
    (fun _ _ => ListingYields [sub_video; sub_low; sub_youtube; sub_text] None)
    (fun _ _ _ =>
       ListingYields [sub_video; sub_low; sub_youtube; sub_text] None)
    (fun _ => inr 404%Z)
    (fun n => inject_Z (36000 + Z.of_nat n)).


(** A heap with a comment at 0 and its child at 1. *)
Definition heap_chain : gmap loc RedditComment :=
  <[1%nat := mkComment (Some "bea") "first" 6 None]>
    (<[0%nat := mkComment (Some "ann") "top" 10 (Some 1%nat)]> ∅).

(** ** Vocabulary of the further statements *)

(** The sum of a list of durations. *)
Definition Qsum (l : list Q) : Q := fold_right Qplus 0%Q l.

(** The number of calls of [next_chunk] in a log. *)
Definition chunk_calls (l : list event) : nat :=
  length (List.filter (fun e => match e with EvNextChunk => true | _ => false end) l).

(** The arguments pass the checks of [upload], a valid credential is
    stored, and the service object can be built. *)
Definition upload_ready (env : yt_env) (p : string) (cat : Z)
  (privacy_status : pyval) : Prop :=
  isfile env p = true /\ (0 < cat)%Z
  /\ in_valid_privacy_statuses privacy_status = true
  /\ path_exists env _OAUTH_FILE = true
  /\ (exists c, storage_get env _OAUTH_FILE = Some c /\ invalid c = false)
  /\ build_raises env = None.

(** The events of [upload] before the first chunk. *)
Definition upload_prelude (p : string) : list event :=
  [EvIsFile p; EvExists _OAUTH_FILE; EvStorageGet _OAUTH_FILE; EvBuild].

(** A chunk that is still in progress, or a fault that is retried. *)
Definition goes_on (c : chunk) : bool :=
  match c with
  | ChunkReturns None => true
  | _ => retriable_fault c
  end.

(** ** Further concrete worlds *)

(** The world of [env_retry] with another request and another outcome of
    [build]. *)
Definition env_with (request : list chunk) (build : option exn) : yt_env :=
  mkYtEnv (fun p => String.eqb p video_file) (fun _ => true)
    (fun _ => Some (mkCreds false)) build request (fun _ => (1 # 2)%Q).

Definition fault403 : chunk := ChunkRaises (HttpError 403 "forbidden").

(** The test of the score in [_filter_articles]. *)
Definition score_ok (min_score : option Z) (a : RedditArticle) : bool :=
  match min_score with
  | None => true
  | Some ms => negb (art_score a <? ms)%Z
  end.

(** A world whose listings raise [e] at the call. *)
Definition env_listing_raises (e : exn) : reddit_env :=
  mkRedditEnv (fun _ _ => ListingRaises e) (fun _ _ _ => ListingRaises e)
    (fun _ => inr 200%Z) (fun n => inject_Z (Z.of_nat n)).

(** The test of the second loop of [get_comments]: the comment has an
    author and its text is not the mark of a deleted comment. *)
Definition keep_comment (p : praw_comment) : bool :=
  match praw_author p with
  | None => false
  | Some _ => negb (String.eqb (praw_body p) "[deleted]")
  end.

(** The object at [c] has the author, text and score of [p]. *)
Definition top_of (h : gmap loc RedditComment) (c : loc) (p : praw_comment)
  : Prop :=
  exists o, h !! c = Some o /\ data_of o = praw_data p.

(** The comments that [get_comments] copies, in the order it returns
    them. *)
Definition top_comments (article_comments : list praw_node)
  (max_comments : Z) : list praw_comment :=
  List.filter keep_comment
    (firstn (Z.to_nat (Z.max 1 max_comments))
       (sort_desc praw_score (comments_of article_comments))).

(** [weaker_min mn' mn]: the minimum duration [mn'] asks for no more than
    [mn]; [weaker_max] likewise for the maximum. *)
Definition weaker_min (mn' mn : option Z) : Prop :=
  match mn', mn with
  | None, _ => True
  | Some b, Some a => (b <= a)%Z
  | Some _, None => False
  end.

Definition weaker_max (mx' mx : option Z) : Prop :=
  match mx', mx with
  | None, _ => True
  | Some b, Some a => (a <= b)%Z
  | Some _, None => False
  end.

(** The name of the audio track for a file name. *)
Definition audio_basename (file : string) : string :=
  if String.eqb (splitext_ext file) ".mp4" then "DASH_audio.mp4" else "audio".

(** An article with a native video at [url], and worlds for it. *)
Definition article_with_video (gif : bool) (url : string) (ty : option string)
  : RedditArticle :=
  RedditArticle_init
    (mkSubmission "A video" (Some "alice") "" None "v2" url 5 false 0
       (Some (mkMedia (Some (mkRedditVideo gif 10 url)) ty)) []).

Definition env_head (status : exn + Z) : reddit_env :=
  mkRedditEnv (fun _ _ => ListingYields [] None)
    (fun _ _ _ => ListingYields [] None)
    (fun _ => status) (fun n => inject_Z (Z.of_nat n)).

(** The candidates of [_get_random_path] in a directory. *)
Definition candidate (root ext rand_str : string) : string :=
  os_path_join root (rand_str +:+ "." +:+ ext).

(** * Properties *)

(** ** The log *)

Lemma add_log_nil s : add_log s [] = s.
Proof. destruct s; unfold add_log; simpl. by rewrite app_nil_r. Qed.

Lemma add_log_app s es1 es2 :
  add_log (add_log s es1) es2 = add_log s (es1 ++ es2).
Proof. unfold add_log; simpl. by rewrite <- app_assoc. Qed.

Lemma sleeps_app l1 l2 : sleeps (l1 ++ l2) = (sleeps l1 ++ sleeps l2)%list.
Proof.
  induction l1 as [|e l1 IH]; [done|].
  destruct e; simpl; rewrite ?IH; done.
Qed.

(** ** youtube.py: the checks of [upload] *)

Lemma pytype_eqb_eq a b : pytype_eqb a b = true <-> a = b.
Proof. destruct a, b; simpl; split; intros H; try done. Qed.

(** C10. [upload] checks the types of its arguments first: when [path],
    [title] or [desc] is not a [str], [tags] is not a [set] or [category]
    is not an [int], it raises [TypeError] and the state is the one of the
    call, so neither the file, nor the category range, nor the privacy
    status, nor the credential has been looked at. *)
Theorem upload_type_checks_first env path title desc tags category
    privacy_status s :
  type path <> TStr \/ type title <> TStr \/ type desc <> TStr \/
  type tags <> TSet \/ type category <> TInt ->
  exists msg,
    upload env path title desc tags category privacy_status s
      = (Raises (TypeError msg), s)
    /\ In msg type_error_messages.
Proof.
  intros H. unfold upload, type_error_messages.
  destruct (pytype_eqb (type path) TStr) eqn:E1; simpl;
    [|eexists; split; [reflexivity|simpl; tauto]].
  destruct (pytype_eqb (type title) TStr) eqn:E2; simpl;
    [|eexists; split; [reflexivity|simpl; tauto]].
  destruct (pytype_eqb (type desc) TStr) eqn:E3; simpl;
    [|eexists; split; [reflexivity|simpl; tauto]].
  destruct (pytype_eqb (type tags) TSet) eqn:E4; simpl;
    [|eexists; split; [reflexivity|simpl; tauto]].
  destruct (pytype_eqb (type category) TInt) eqn:E5; simpl;
    [|eexists; split; [reflexivity|simpl; tauto]].
  apply pytype_eqb_eq in E1, E2, E3, E4, E5. tauto.
Qed.

(** A category that is not an [int], with a path that is no file. *)
Lemma upload_type_checks_first_witness :
  exists msg,
    upload env_retry (PyStr "missing.mp4") (PyStr "t") (PyStr "") (PySet [])
      (PyBool true) (PyStr "unlisted") state0
      = (Raises (TypeError msg), state0)
    /\ In msg type_error_messages.
Proof.
  apply (upload_type_checks_first env_retry (PyStr "missing.mp4") (PyStr "t")
           (PyStr "") (PySet []) (PyBool true) (PyStr "unlisted") state0).
  right; right; right; right. simpl. discriminate.
Defined.

(** Each of the five type checks reports its own argument, in the order of
    the parameters. *)
Lemma upload_type_error_path env path title desc tags category ps s :
  type path <> TStr ->
  upload env path title desc tags category ps s
  = (Raises (TypeError "path must be of type str"), s).
Proof.
  intros H. unfold upload.
  destruct (pytype_eqb (type path) TStr) eqn:E; [|done].
  apply pytype_eqb_eq in E. done.
Qed.

Lemma upload_type_error_category env p t d ts category ps s :
  type category <> TInt ->
  upload env (PyStr p) (PyStr t) (PyStr d) (PySet ts) category ps s
  = (Raises (TypeError "category must be of type int"), s).
Proof.
  intros H. unfold upload; simpl.
  destruct (pytype_eqb (type category) TInt) eqn:E; [|done].
  apply pytype_eqb_eq in E. done.
Qed.

(** With arguments of the right types the last branch of the model of
    [upload] is not taken. *)
Lemma well_typed_args path category :
  type path = TStr -> type category = TInt ->
  exists p cat, path = PyStr p /\ category = PyInt cat.
Proof. destruct path, category; try done. eauto. Qed.

(** C7. With arguments of the right types, [upload] checks that [path] is
    a file, then that [category] is positive, then the privacy status; each
    violation raises [ValueError] with the message of its field, and the
    only event of the call is the look at the file: no credential is read
    and the network is not used. A path that is no file is reported
    whatever the category is. *)
Theorem upload_validation_order env p t d ts cat privacy_status s :
  let r := upload env (PyStr p) (PyStr t) (PyStr d) (PySet ts) (PyInt cat)
             privacy_status s in
  let s' := add_log s [EvIsFile p] in
  (isfile env p = false ->
   r = (Raises (ValueError (dquote +:+ p +:+ dquote +:+ " is not a file")),
        s'))
  /\ (isfile env p = true -> (cat <= 0)%Z ->
      r = (Raises (ValueError "category must be greater than 0"), s'))
  /\ (isfile env p = true -> (0 < cat)%Z ->
      in_valid_privacy_statuses privacy_status = false ->
      r = (Raises (ValueError privacy_status_msg), s')).
Proof.
  cbv zeta. unfold upload, os_path_isfile, bind, emit, ret, raise; simpl.
  repeat split.
  - intros ->. reflexivity.
  - intros -> Hc. simpl. apply Z.leb_le in Hc. rewrite Hc. reflexivity.
  - intros -> Hc Hp. simpl.
    assert ((cat <=? 0)%Z = false) as -> by (apply Z.leb_gt; lia).
    rewrite Hp. reflexivity.
Qed.

Lemma upload_validation_order_witness :
  upload env_retry (PyStr "missing.mp4") (PyStr "t") (PyStr "") (PySet [])
    (PyInt 0) (PyStr "unlisted") state0
  = (Raises (ValueError (dquote +:+ "missing.mp4" +:+ dquote
                         +:+ " is not a file")),
     add_log state0 [EvIsFile "missing.mp4"])
  /\ upload env_retry (PyStr video_file) (PyStr "t") (PyStr "") (PySet [])
       (PyInt 0) (PyStr "unlisted") state0
     = (Raises (ValueError "category must be greater than 0"),
        add_log state0 [EvIsFile video_file])
  /\ upload env_retry (PyStr video_file) (PyStr "t") (PyStr "") (PySet [])
       (PyInt 22) (PyStr "secret") state0
     = (Raises (ValueError privacy_status_msg),
        add_log state0 [EvIsFile video_file]).
Proof.
  split; [|split].
  - apply (upload_validation_order env_retry "missing.mp4" "t" "" [] 0
             (PyStr "unlisted") state0). reflexivity.
  - apply (upload_validation_order env_retry video_file "t" "" [] 0
             (PyStr "unlisted") state0); [reflexivity | lia].
  - apply (upload_validation_order env_retry video_file "t" "" [] 22
             (PyStr "secret") state0); [reflexivity | lia | reflexivity].
Defined.

(** ** youtube.py: the credential *)

Lemma get_creds_none env s :
  no_valid_credential env ->
  exists es,
    _get_creds env _OAUTH_FILE s = (Returns None, add_log s es)
    /\ forallb is_cred_check es = true.
Proof.
  unfold _get_creds, os_path_exists, Storage_get, bind, emit, ret; simpl.
  intros [H | [H | (c & H & Hc)]].
  - rewrite H. exists [EvExists _OAUTH_FILE]. done.
  - destruct (path_exists env _OAUTH_FILE).
    + simpl. rewrite H. exists [EvExists _OAUTH_FILE; EvStorageGet _OAUTH_FILE].
      unfold add_log; simpl. by rewrite <- app_assoc.
    + exists [EvExists _OAUTH_FILE]. done.
  - destruct (path_exists env _OAUTH_FILE).
    + simpl. rewrite H, Hc. simpl.
      exists [EvExists _OAUTH_FILE; EvStorageGet _OAUTH_FILE].
      unfold add_log; simpl. by rewrite <- app_assoc.
    + exists [EvExists _OAUTH_FILE]. done.
Qed.

Lemma get_creds_some env c s :
  path_exists env _OAUTH_FILE = true ->
  storage_get env _OAUTH_FILE = Some c -> invalid c = false ->
  _get_creds env _OAUTH_FILE s
  = (Returns (Some c),
     add_log s [EvExists _OAUTH_FILE; EvStorageGet _OAUTH_FILE]).
Proof.
  intros H1 H2 H3.
  unfold _get_creds, os_path_exists, Storage_get, bind, emit, ret; simpl.
  rewrite H1; simpl. rewrite H2, H3; simpl.
  unfold add_log; simpl. by rewrite <- app_assoc.
Qed.

(** [upload] after its checks: the rest of the function runs in the state
    that has the look at the file. *)
Lemma upload_checked env p t d ts cat privacy_status s :
  isfile env p = true -> (0 < cat)%Z ->
  in_valid_privacy_statuses privacy_status = true ->
  upload env (PyStr p) (PyStr t) (PyStr d) (PySet ts) (PyInt cat)
    privacy_status s
  = (creds <- _get_creds env _OAUTH_FILE ;;
     match creds with
     | None =>
         ret (PyExc (AuthException
                       "Application has not been authenticated yet"))
     | Some _ =>
         build env ;;;
         video_id <- _resumable_upload env (insert_request env) ;;
         ret (PyStr video_id)
     end)%py (add_log s [EvIsFile p]).
Proof.
  intros Hf Hc Hp. unfold upload; simpl. unfold bind at 1.
  unfold os_path_isfile, bind at 1, emit, ret; simpl. rewrite Hf; simpl.
  assert ((cat <=? 0)%Z = false) as -> by (apply Z.leb_gt; lia).
  rewrite Hp; simpl. reflexivity.
Qed.

Lemma cred_checks_no_network es :
  forallb is_cred_check es = true -> existsb is_network es = false.
Proof.
  induction es as [|e es IH]; [done|]. simpl.
  intros [H1 H2]%andb_prop. rewrite IH by done. by destruct e.
Qed.

(** Without a valid credential, and with arguments that pass the checks,
    [upload] does not use the network, and it does not raise: the
    [AuthException] is its return value. *)
Lemma upload_unauthenticated env p t d ts cat privacy_status s :
  isfile env p = true -> (0 < cat)%Z ->
  in_valid_privacy_statuses privacy_status = true ->
  no_valid_credential env ->
  exists es,
    upload env (PyStr p) (PyStr t) (PyStr d) (PySet ts) (PyInt cat)
      privacy_status s
    = (Returns (PyExc (AuthException
                         "Application has not been authenticated yet")),
       add_log s es)
    /\ existsb is_network es = false.
Proof.
  intros Hf Hc Hp Hn.
  destruct (get_creds_none env (add_log s [EvIsFile p]) Hn) as (es & He & Hes).
  exists (EvIsFile p :: es). split.
  - rewrite upload_checked by done. unfold bind. rewrite He.
    unfold ret. by rewrite add_log_app.
  - simpl. by apply cred_checks_no_network.
Qed.

(** C1. A call of [upload] on an existing file, with valid arguments and
    no credential file: the call returns the [AuthException] object, it
    does not raise it; the network is not used. *)
Theorem upload_unauthenticated_returns_exception :
  upload env_noauth (PyStr video_file) (PyStr "title") (PyStr "")
    (PySet []) (PyInt 22) (PyStr "unlisted") state0
  = (Returns (PyExc (AuthException
                       "Application has not been authenticated yet")),
     add_log state0 [EvIsFile video_file; EvExists _OAUTH_FILE])
  /\ existsb is_network [EvIsFile video_file; EvExists _OAUTH_FILE] = false.
Proof. split; reflexivity. Qed.

(** ** youtube.py: the upload loop *)

Lemma try_next_chunk_fault c error s :
  retriable_fault c = true ->
  try_next_chunk c error s
  = (Returns (inr (Some (fault_message c))), add_log s [EvNextChunk]).
Proof.
  intros H. destruct c as [r|e]; [done|].
  unfold try_next_chunk, try_except, next_chunk, bind, emit, raise, ret.
  simpl. destruct e; simpl in *; try done.
  by rewrite H.
Qed.

Lemma backoff_exhausted env msg retry s :
  (_MAX_RETRIES < retry + 1)%Z ->
  backoff env msg retry s = (Raises retries_exhausted, add_log s [EvPrint msg]).
Proof.
  intros H. unfold backoff, print, bind, emit, raise; simpl.
  apply Z.ltb_lt in H. rewrite H. reflexivity.
Qed.

Lemma backoff_sleeps env msg retry s :
  (retry + 1 <= _MAX_RETRIES)%Z ->
  backoff env msg retry s
  = (Returns (retry + 1)%Z,
     mkState
       (log s ++ [EvPrint msg; EvRandom;
                  EvSleep (random_random env (draws s)
                           * inject_Z (2 ^ (retry + 1)))])
       (S (draws s)) (ticks s)).
Proof.
  intros H. unfold backoff, print, random, time_sleep, bind, emit, ret; simpl.
  assert ((_MAX_RETRIES <? retry + 1)%Z = false) as ->
    by (apply Z.ltb_ge; lia).
  simpl. by rewrite <- !app_assoc.
Qed.

(** One iteration on a retriable fault. *)
Lemma upload_loop_fault_exhausted env c rest error retry s :
  retriable_fault c = true -> (_MAX_RETRIES < retry + 1)%Z ->
  upload_loop env (c :: rest) error retry s
  = (Raises retries_exhausted,
     add_log s [EvNextChunk; EvPrint (fault_message c)]).
Proof.
  intros Hc Hr. simpl. unfold bind at 1.
  rewrite try_next_chunk_fault by done. unfold bind.
  rewrite backoff_exhausted by done. by rewrite add_log_app.
Qed.

Lemma upload_loop_fault_retry env c rest error retry s :
  retriable_fault c = true -> (retry + 1 <= _MAX_RETRIES)%Z ->
  upload_loop env (c :: rest) error retry s
  = upload_loop env rest (Some (fault_message c)) (retry + 1)
      (after_backoff env c (retry + 1) s).
Proof.
  intros Hc Hr. simpl. unfold bind at 1.
  rewrite try_next_chunk_fault by done. unfold bind.
  rewrite backoff_sleeps by done. unfold after_backoff; simpl.
  by rewrite <- app_assoc.
Qed.

Lemma sleeps_after_backoff env c retry s :
  sleeps (log (after_backoff env c retry s))
  = (sleeps (log s)
     ++ [(random_random env (draws s) * inject_Z (2 ^ retry))%Q])%list.
Proof. unfold after_backoff; simpl. by rewrite sleeps_app. Qed.

(** The delay is in [[0, 2^retry)] when the random value is in [[0, 1)]. *)
Lemma backoff_range (r : Q) (retry : Z) :
  (0 <= retry)%Z -> (0 <= r)%Q -> (r < 1)%Q ->
  (0 <= r * inject_Z (2 ^ retry))%Q
  /\ (r * inject_Z (2 ^ retry) < inject_Z (2 ^ retry))%Q.
Proof.
  intros Hn H0 H1.
  assert (0 < inject_Z (2 ^ retry))%Q as Hp.
  { change 0%Q with (inject_Z 0). rewrite <- Zlt_Qlt. apply Z.pow_pos_nonneg; lia. }
  split.
  - apply Qmult_le_0_compat; [done|]. by apply Qlt_le_weak.
  - rewrite <- (Qmult_1_l (inject_Z (2 ^ retry))) at 2.
    apply Qmult_lt_compat_r; done.
Qed.

(** A run of [n] retriable faults from the counter [retry], within the
    bound: the loop sleeps [n] times and goes on with the counter
    [retry + n]. *)
Lemma upload_loop_faults env faults :
  forall rest error retry s,
    forallb retriable_fault faults = true ->
    (retry + Z.of_nat (length faults) <= _MAX_RETRIES)%Z ->
    exists error' s',
      upload_loop env (faults ++ rest) error retry s
      = upload_loop env rest error' (retry + Z.of_nat (length faults)) s'
      /\ length (sleeps (log s'))
         = (length (sleeps (log s)) + length faults)%nat.
Proof.
  induction faults as [|c faults IH]; intros rest error retry s Hf Hb.
  - exists error, s. simpl. rewrite Z.add_0_r, Nat.add_0_r. done.
  - simpl in Hf. apply andb_prop in Hf as [Hc Hf].
    simpl length in Hb.
    change ((c :: faults) ++ rest)%list with (c :: (faults ++ rest))%list.
    rewrite upload_loop_fault_retry by (done || lia).
    destruct (IH rest (Some (fault_message c)) (retry + 1)%Z
                (after_backoff env c (retry + 1) s) Hf)
      as (e' & s' & H1 & H2); [lia|].
    exists e', s'. split.
    + rewrite H1. f_equal. simpl length. lia.
    + rewrite H2, sleeps_after_backoff, length_app. simpl. lia.
Qed.

Lemma upload_loop_exhausts env faults rest s :
  forallb retriable_fault faults = true ->
  (10 < length faults)%nat ->
  exists s',
    _resumable_upload env (faults ++ rest) s = (Raises retries_exhausted, s')
    /\ length (sleeps (log s')) = (length (sleeps (log s)) + 10)%nat.
Proof.
  intros Hf Hl.
  rewrite <- (firstn_skipn 10 faults) in Hf |- *.
  rewrite forallb_app in Hf. apply andb_prop in Hf as [Hf1 Hf2].
  assert (length (firstn 10 faults) = 10%nat) as Hl1
    by (rewrite length_firstn; lia).
  destruct (skipn 10 faults) as [|c tl] eqn:E.
  { apply (f_equal length) in E. rewrite length_skipn in E. simpl in E. lia. }
  simpl in Hf2. apply andb_prop in Hf2 as [Hc _].
  rewrite <- app_assoc. unfold _resumable_upload.
  destruct (upload_loop_faults env (firstn 10 faults) ((c :: tl) ++ rest)
              None 0%Z s Hf1) as (e' & s' & H1 & H2).
  { rewrite Hl1. unfold _MAX_RETRIES. lia. }
  rewrite H1, Hl1.
  change ((c :: tl) ++ rest)%list with (c :: (tl ++ rest))%list.
  rewrite upload_loop_fault_exhausted by (done || (unfold _MAX_RETRIES; lia)).
  eexists; split; [reflexivity|].
  unfold add_log; simpl. rewrite sleeps_app; simpl.
  rewrite app_nil_r, H2, Hl1. done.
Qed.

(** C2. The upload loop on retriable faults.
    - Each transport fault, and each HTTP fault with a status among 500,
      502, 503 and 504, increments the counter. When the counter is then
      above 10 the loop raises [UploadException]; otherwise it sleeps
      [r * 2^retry] seconds, [r] being the value of [random.random()], a
      delay in [[0, 2^retry)], and goes on with the next chunk.
    - The counter starts at 0, so that after [n <= 10] faults in a row the
      loop has slept [n] times and the counter is [n]; an eleventh fault
      ends the loop after 10 sleeps.
    - With three faults of status 503 and then a response with the id
      ["abc123"], [upload] returns ["abc123"], and it has slept exactly
      three times. *)
Theorem upload_retry_backoff :
  (forall env c rest error retry s,
     retriable_fault c = true ->
     let r := random_random env (draws s) in
     let delay := (r * inject_Z (2 ^ (retry + 1)))%Q in
     ((_MAX_RETRIES < retry + 1)%Z ->
      upload_loop env (c :: rest) error retry s
      = (Raises retries_exhausted,
         add_log s [EvNextChunk; EvPrint (fault_message c)]))
     /\ ((retry + 1 <= _MAX_RETRIES)%Z ->
         upload_loop env (c :: rest) error retry s
         = upload_loop env rest (Some (fault_message c)) (retry + 1)
             (after_backoff env c (retry + 1) s)
         /\ sleeps (log (after_backoff env c (retry + 1) s))
            = (sleeps (log s) ++ [delay])%list)
     /\ ((0 <= retry)%Z -> (0 <= r)%Q -> (r < 1)%Q ->
         (0 <= delay)%Q /\ (delay < inject_Z (2 ^ (retry + 1)))%Q))
  /\ (forall env faults rest s,
        forallb retriable_fault faults = true ->
        ((length faults <= 10)%nat ->
         exists error s',
           _resumable_upload env (faults ++ rest) s
           = upload_loop env rest error (Z.of_nat (length faults)) s'
           /\ length (sleeps (log s'))
              = (length (sleeps (log s)) + length faults)%nat)
        /\ ((10 < length faults)%nat ->
            exists s',
              _resumable_upload env (faults ++ rest) s
              = (Raises retries_exhausted, s')
              /\ length (sleeps (log s'))
                 = (length (sleeps (log s)) + 10)%nat))
  /\ (forall env p t d ts cat privacy_status creds b1 b2 b3 response s,
        isfile env p = true -> (0 < cat)%Z ->
        in_valid_privacy_statuses privacy_status = true ->
        path_exists env _OAUTH_FILE = true ->
        storage_get env _OAUTH_FILE = Some creds -> invalid creds = false ->
        build_raises env = None ->
        insert_request env
        = [ChunkRaises (HttpError 503 b1); ChunkRaises (HttpError 503 b2);
           ChunkRaises (HttpError 503 b3); ChunkReturns (Some response)] ->
        resp_id response = Some "abc123" ->
        exists s',
          upload env (PyStr p) (PyStr t) (PyStr d) (PySet ts) (PyInt cat)
            privacy_status s
          = (Returns (PyStr "abc123"), s')
          /\ length (sleeps (log s')) = (length (sleeps (log s)) + 3)%nat).
Proof.
  split; [|split].
  - intros env c rest error retry s Hc r delay. split; [|split].
    + intros H. by apply upload_loop_fault_exhausted.
    + intros H. split; [by apply upload_loop_fault_retry|].
      apply sleeps_after_backoff.
    + intros H0 H1 H2. apply backoff_range; [lia | done | done].
  - intros env faults rest s Hf. split.
    + intros Hl. unfold _resumable_upload.
      destruct (upload_loop_faults env faults rest None 0%Z s Hf)
        as (e' & s' & H1 & H2); [unfold _MAX_RETRIES; lia|].
      exists e', s'. by rewrite H1.
    + intros Hl. by apply upload_loop_exhausts.
  - intros env p t d ts cat ps creds b1 b2 b3 response s
      Hf Hc Hp He Hs Hi Hb Hr Hid.
    rewrite upload_checked by done. unfold bind at 1.
    rewrite (get_creds_some env creds) by done.
    unfold bind at 1. unfold build, bind at 1, emit, ret. rewrite Hb. simpl.
    unfold bind at 1. rewrite Hr.
    set (faults := [ChunkRaises (HttpError 503 b1);
                    ChunkRaises (HttpError 503 b2);
                    ChunkRaises (HttpError 503 b3)]).
    match goal with |- context [_resumable_upload env _ ?s0] =>
      destruct (upload_loop_faults env faults [ChunkReturns (Some response)]
                  None 0%Z s0 eq_refl) as (e' & s' & H1 & H2)
    end; [unfold _MAX_RETRIES; simpl; lia|].
    unfold _resumable_upload.
    change [ChunkRaises (HttpError 503 b1); ChunkRaises (HttpError 503 b2);
            ChunkRaises (HttpError 503 b3); ChunkReturns (Some response)]
      with (faults ++ [ChunkReturns (Some response)])%list.
    rewrite H1. simpl upload_loop.
    unfold bind at 1. unfold try_next_chunk, try_except, next_chunk, bind at 1,
      emit, ret. simpl. rewrite Hid. simpl.
    eexists; split; [reflexivity|]. simpl.
    rewrite sleeps_app. simpl. rewrite app_nil_r, H2. simpl.
    rewrite !sleeps_app. simpl. rewrite !app_nil_r. done.
Qed.

Lemma upload_retry_backoff_witness :
  exists s',
    upload env_retry (PyStr video_file) (PyStr "title") (PyStr "")
      (PySet []) (PyInt 22) (PyStr "unlisted") state0
    = (Returns (PyStr "abc123"), s')
    /\ length (sleeps (log s')) = (length (sleeps (log state0)) + 3)%nat.
Proof.
  apply (proj2 (proj2 upload_retry_backoff) env_retry video_file "title" ""
           [] 22%Z (PyStr "unlisted") (mkCreds false)
           "unavailable" "unavailable" "unavailable"
           (mkResponse (Some "abc123") "{'id': 'abc123'}") state0);
    first [reflexivity | lia].
Defined.

(** ** The sort *)

Section SortFacts.
Context {A : Type} (key : A -> Z).

Lemma insert_desc_perm (x : A) (l : list A) : Permutation (insert_desc key x l) (x :: l).
Proof.
  induction l as [|y l IH]; simpl; [done|].
  destruct (key x <? key y)%Z; [|done].
  rewrite IH. apply perm_swap.
Qed.


Lemma insert_desc_sorted (x : A) (l : list A) :
  StronglySorted (desc key) l -> StronglySorted (desc key) (insert_desc key x l).
Proof.
  induction 1 as [|y l Hs IH Hy]; simpl.
  - repeat constructor.
  - destruct (key x <? key y)%Z eqn:E.
    + constructor; [done|].
      rewrite insert_desc_perm. constructor; [|done].
      apply Z.ltb_lt in E. unfold desc. lia.
    + apply Z.ltb_ge in E. constructor; [by constructor|].
      constructor; [done|].
      eapply Forall_impl; [exact Hy|]. unfold desc. intros; lia.
Qed.

Lemma sort_desc_sorted (l : list A) : StronglySorted (desc key) (sort_desc key l).
Proof.
  induction l as [|x l IH]; simpl; [constructor|].
  by apply insert_desc_sorted.
Qed.

(** Stability: the elements of each key are in the order of the input. *)
Lemma insert_desc_with_key k (x : A) (l : list A) :
  StronglySorted (desc key) l ->
  with_key key k (insert_desc key x l) = with_key key k (x :: l).
Proof.
  unfold with_key.
  induction 1 as [|y l Hs IH Hy]; simpl; [done|].
  destruct (key x <? key y)%Z eqn:E; [|done].
  simpl. rewrite IH. simpl. apply Z.ltb_lt in E.
  destruct (key x =? k)%Z eqn:E1, (key y =? k)%Z eqn:E2; try done.
  apply Z.eqb_eq in E1, E2. lia.
Qed.

Lemma sort_desc_stable k (l : list A) : with_key key k (sort_desc key l) = with_key key k l.
Proof.
  induction l as [|x l IH]; simpl; [done|].
  rewrite insert_desc_with_key by apply sort_desc_sorted.
  unfold with_key in *. simpl. by rewrite IH.
Qed.
End SortFacts.

(** ** reddit.py: the listings *)

Lemma hours_between_mono c1 c2 t :
  (c1 <= c2)%Q -> (hours_between c1 t <= hours_between c2 t)%Q.
Proof.
  intros H. unfold hours_between, Qdiv.
  apply Qmult_le_compat_r; [|done].
  unfold Qminus. apply Qplus_le_l. exact H.
Qed.

(** The filtering pass: it returns, the articles it keeps are among the
    ones it is given, in their order, each with a score of at least
    [min_score], and each with an age, as read from the clock during the
    pass, of at least [min_age]. *)
Lemma filter_loop_spec env min_score min_age articles :
  forall filtered s,
  exists kept s',
    filter_loop env articles filtered min_score min_age s
    = (Returns (filtered ++ kept)%list, s')
    /\ sublist kept articles
    /\ (ticks s <= ticks s')%nat
    /\ (forall ms, min_score = Some ms ->
        Forall (fun a => (ms <= art_score a)%Z) kept)
    /\ (forall ma, min_age = Some ma ->
        Forall (fun a =>
                  exists t, (ticks s <= t < ticks s')%nat
                            /\ (ma <= hours_between (clock env t)
                                        (art_time_created a))%Q) kept).
Proof.
  induction articles as [|art rest IH]; intros filtered s.
  - exists [], s. simpl. rewrite app_nil_r. unfold ret.
    repeat split; try done; intros; constructor.
  - (* the three ways out of an iteration *)
    assert (exists kept s',
              filter_loop env rest filtered min_score min_age s
              = (Returns (filtered ++ kept)%list, s')
              /\ sublist kept (art :: rest) /\ (ticks s <= ticks s')%nat
              /\ (forall ms, min_score = Some ms ->
                  Forall (fun a => (ms <= art_score a)%Z) kept)
              /\ (forall ma, min_age = Some ma ->
                  Forall (fun a =>
                    exists t, (ticks s <= t < ticks s')%nat
                              /\ (ma <= hours_between (clock env t)
                                          (art_time_created a))%Q) kept))
      as Hskip.
    { destruct (IH filtered s) as (kept & s' & H1 & H2 & H3 & H4 & H5).
      exists kept, s'. repeat split; try done. by apply sublist_cons. }
    assert (min_age = None ->
            (forall ms, min_score = Some ms -> (ms <= art_score art)%Z) ->
            exists kept s',
              filter_loop env rest (filtered ++ [art]) min_score min_age s
              = (Returns (filtered ++ kept)%list, s')
              /\ sublist kept (art :: rest) /\ (ticks s <= ticks s')%nat
              /\ (forall ms, min_score = Some ms ->
                  Forall (fun a => (ms <= art_score a)%Z) kept)
              /\ (forall ma, min_age = Some ma ->
                  Forall (fun a =>
                    exists t, (ticks s <= t < ticks s')%nat
                              /\ (ma <= hours_between (clock env t)
                                          (art_time_created a))%Q) kept))
      as Hkeep.
    { intros Hage Hsc.
      destruct (IH (filtered ++ [art])%list s)
        as (kept & s' & H1 & H2 & H3 & H4 & H5).
      exists (art :: kept), s'. rewrite H1, <- app_assoc. simpl.
      repeat split; try done.
      - by apply sublist_skip.
      - intros ms Hms. constructor; [by apply Hsc | by apply H4].
      - intros ma Hma. congruence. }
    simpl.
    destruct min_age as [ma|].
    + (* the age is read *)
      assert ((forall ms, min_score = Some ms -> (ms <= art_score art)%Z) ->
              exists kept s',
                (a <- age env art ;;
                 if Qlt_le_dec a ma
                 then filter_loop env rest filtered min_score (Some ma)
                 else filter_loop env rest (filtered ++ [art])%list
                        min_score (Some ma))%py s
                = (Returns (filtered ++ kept)%list, s')
                /\ sublist kept (art :: rest) /\ (ticks s <= ticks s')%nat
                /\ (forall ms, min_score = Some ms ->
                    Forall (fun a => (ms <= art_score a)%Z) kept)
                /\ (forall ma0, Some ma = Some ma0 ->
                    Forall (fun a =>
                      exists t, (ticks s <= t < ticks s')%nat
                                /\ (ma0 <= hours_between (clock env t)
                                            (art_time_created a))%Q) kept))
        as Hage.
      { intros Hsc. unfold bind at 1, age, bind at 1, datetime_now, ret.
        simpl.
        set (s1 := mkState (log s ++ [EvClock]) (draws s) (S (ticks s))).
        destruct (Qlt_le_dec _ ma) as [Hlt|Hle].
        - destruct (IH filtered s1) as (kept & s' & H1 & H2 & H3 & H4 & H5).
          exists kept, s'. simpl in H3.
          repeat split; try done; [by apply sublist_cons | lia |].
          intros ma0 [= <-]. eapply Forall_impl; [by apply H5|].
          simpl. intros a (t & Ht & Ha). exists t. split; [lia | done].
        - destruct (IH (filtered ++ [art])%list s1)
            as (kept & s' & H1 & H2 & H3 & H4 & H5).
          exists (art :: kept), s'. rewrite H1, <- app_assoc. simpl in *.
          repeat split; try done; [by apply sublist_skip | lia | |].
          + intros ms Hms. constructor; [by apply Hsc | by apply H4].
          + intros ma0 [= <-]. constructor.
            * exists (ticks s). split; [lia | done].
            * eapply Forall_impl; [by apply H5|].
              simpl. intros a (t & Ht & Ha). exists t. split; [lia | done]. }
      destruct min_score as [ms|].
      * destruct (art_score art <? ms)%Z eqn:E; [exact Hskip|].
        apply Hage. intros ms0 [= <-]. by apply Z.ltb_ge.
      * apply Hage. intros ms0 [=].
    + destruct min_score as [ms|].
      * destruct (art_score art <? ms)%Z eqn:E; [exact Hskip|].
        apply Hkeep; [done|]. intros ms0 [= <-]. by apply Z.ltb_ge.
      * apply Hkeep; [done|]. intros ms0 [=].
Qed.


Lemma get_hot_articles_eq env subreddit limit min_score min_age :
  get_hot_articles env subreddit limit min_score min_age
  = listing_of env "hot" subreddit (sub_hot env subreddit (norm_limit limit))
      min_score min_age.
Proof. reflexivity. Qed.

Lemma get_top_articles_eq env subreddit time_filter limit min_score min_age :
  In time_filter VALID_TIME_FILTERS ->
  get_top_articles env subreddit time_filter limit min_score min_age
  = listing_of env "top" subreddit
      (sub_top env subreddit time_filter (norm_limit limit))
      min_score min_age.
Proof.
  intros H. unfold get_top_articles.
  rewrite bool_decide_eq_true_2; [done|]. by apply list_elem_of_In.
Qed.

Lemma get_top_articles_rejects env subreddit time_filter limit min_score
    min_age s :
  ~ In time_filter VALID_TIME_FILTERS ->
  get_top_articles env subreddit time_filter limit min_score min_age s
  = (Raises (RedditApiException
               ("time_filter must be one of " +:+ VALID_TIME_FILTERS_str)),
     s).
Proof.
  intros H. unfold get_top_articles.
  rewrite bool_decide_eq_false_2; [done|]. by rewrite list_elem_of_In.
Qed.


(** A listing that yields all its submissions makes the call return. *)
Lemma listing_of_returns env mode subreddit raw min_score min_age s :
  exists arts s',
    listing_of env mode subreddit (ListingYields raw None) min_score min_age s
    = (Returns arts, s').
Proof.
  unfold listing_of, fetch, bind, try_except, emit, ret, _filter_articles.
  simpl.
  match goal with |- context [filter_loop env ?l [] _ _ ?s0] =>
    destruct (filter_loop_spec env min_score min_age l [] s0)
      as (kept & s2 & H1 & _)
  end.
  rewrite H1. eauto.
Qed.



(** C6, as the code has it. A time filter that is not one of the six
    values makes [get_top_articles] raise [RedditApiException], the
    exception of the module for a failed call of the Reddit API, with the
    state of the call: the listing has not been asked for. *)
Theorem get_top_articles_invalid_time_filter env subreddit time_filter
    limit min_score min_age s :
  ~ In time_filter VALID_TIME_FILTERS ->
  get_top_articles env subreddit time_filter limit min_score min_age s
  = (Raises (RedditApiException
               ("time_filter must be one of " +:+ VALID_TIME_FILTERS_str)),
     s).
Proof. apply get_top_articles_rejects. Qed.

Lemma get_top_articles_invalid_time_filter_witness :
  get_top_articles env_reddit "videos" "decade" (Some 10%Z) None None state0
  = (Raises (RedditApiException
               ("time_filter must be one of " +:+ VALID_TIME_FILTERS_str)),
     state0).
Proof.
  apply (get_top_articles_invalid_time_filter env_reddit "videos" "decade"
           (Some 10%Z) None None state0).
  vm_compute. intuition discriminate.
Defined.

(** C6, as the specification has it, fails: for the time filter
    ["decade"] the exception is not a [ValueError], the class that the
    uploader raises for an invalid argument. *)
Lemma get_top_articles_not_invalid_argument :
  ~ exists msg s',
      get_top_articles env_reddit "videos" "decade" (Some 10%Z) None None
        state0
      = (Raises (ValueError msg), s').
Proof. intros (msg & s' & H). vm_compute in H. discriminate. Qed.

(** ** reddit.py: the video of an article *)

(** The call without bounds accepts whatever a call with bounds accepts. *)
Lemma has_video_default self min_duration max_duration include_youtube :
  has_video self min_duration max_duration include_youtube = true ->
  has_video self None None true = true.
Proof.
  unfold has_video.
  destruct (art_media self) as [m|]; [|done].
  destruct (media_reddit_video m) as [rv|].
  - destruct (is_gif rv); simpl; done.
  - destruct (media_type m) as [ty|]; [|done].
    destruct (String.eqb ty "youtube.com"), include_youtube; done.
Qed.




(** ** Strings *)

Ltac ascii_cases a :=
  destruct a as [[] [] [] [] [] [] [] []]; vm_compute; try done.

Lemma seg_char_plain a :
  seg_char a = true ->
  str_contains a "/?#:;[]" = false
  /\ unsafe_byte a = false
  /\ c0_control_or_space a = false.
Proof. ascii_cases a. Qed.

Lemma append_cons x (a b : string) : String x a +:+ b = String x (a +:+ b).
Proof. reflexivity. Qed.

Lemma append_nil_l (b : string) : "" +:+ b = b.
Proof. reflexivity. Qed.

Lemma append_assoc (a b c : string) : (a +:+ b) +:+ c = a +:+ (b +:+ c).
Proof.
  induction a as [|x a IH]; [done|]. rewrite !append_cons. by rewrite IH.
Qed.

Lemma append_nil_r (a : string) : a +:+ "" = a.
Proof.
  induction a as [|x a IH]; [done|]. rewrite append_cons. by rewrite IH.
Qed.

Lemma str_forall_app p (a b : string) :
  str_forall p (a +:+ b) = str_forall p a && str_forall p b.
Proof.
  induction a as [|x a IH]; [done|].
  rewrite append_cons. simpl. rewrite IH. by rewrite andb_assoc.
Qed.

Lemma str_forall_impl (p q : ascii -> bool) s :
  (forall a, p a = true -> q a = true) ->
  str_forall p s = true -> str_forall q s = true.
Proof.
  intros H. induction s as [|x s IH]; simpl; [done|].
  intros [H1 H2]%andb_prop. rewrite (H _ H1). by apply IH.
Qed.

Lemma str_filter_all p s : str_forall p s = true -> str_filter p s = s.
Proof.
  induction s as [|x s IH]; simpl; [done|].
  intros [H1 H2]%andb_prop. rewrite H1. by rewrite IH.
Qed.

Lemma str_contains_app c (a b : string) :
  str_contains c (a +:+ b) = str_contains c a || str_contains c b.
Proof.
  induction a as [|x a IH]; [done|].
  rewrite append_cons. simpl.
  destruct (Ascii.eqb x c); [done|]. exact IH.
Qed.

Lemma str_partition_none c s :
  str_contains c s = false -> str_partition c s = None.
Proof.
  induction s as [|x s IH]; simpl; [done|].
  destruct (Ascii.eqb x c); [done|]. intros H. by rewrite IH.
Qed.

Lemma str_partition_app c (a b : string) :
  str_contains c a = false ->
  str_partition c (a +:+ String c b) = Some (a, b).
Proof.
  induction a as [|x a IH]; [rewrite append_nil_l|rewrite append_cons]; simpl.
  - by rewrite Ascii.eqb_refl.
  - destruct (Ascii.eqb x c); [done|]. intros H. by rewrite IH.
Qed.

Lemma str_rpartition_none c s :
  str_contains c s = false -> str_rpartition c s = None.
Proof.
  induction s as [|x s IH]; simpl; [done|].
  destruct (Ascii.eqb x c); [done|]. intros H. by rewrite IH.
Qed.

Lemma str_rpartition_app c (a b : string) :
  str_contains c b = false ->
  str_rpartition c (a +:+ String c b) = Some (a, b).
Proof.
  intros H.
  induction a as [|x a IH]; [rewrite append_nil_l|rewrite append_cons]; simpl.
  - rewrite str_rpartition_none by done. by rewrite Ascii.eqb_refl.
  - by rewrite IH.
Qed.

Lemma str_break_app p (a : string) c (b : string) :
  str_forall (fun x => negb (p x)) a = true -> p c = true ->
  str_break p (a +:+ String c b) = (a, String c b).
Proof.
  intros Ha Hc.
  induction a as [|x a IH]; [rewrite append_nil_l|rewrite append_cons]; simpl.
  - by rewrite Hc.
  - simpl in Ha. apply andb_prop in Ha as [H1 H2].
    apply negb_true_iff in H1. rewrite H1. by rewrite IH.
Qed.

Lemma str_lstrip_keep p a s : p a = false -> str_lstrip p (String a s) = String a s.
Proof. intros H. simpl. by rewrite H. Qed.

(** The characters of segments and hosts are none of the delimiters. *)
Lemma seg_chars_contain c s :
  str_contains c "/?#:;[]" = true ->
  str_forall seg_char s = true -> str_contains c s = false.
Proof.
  intros Hc. induction s as [|x s IH]; simpl; [done|].
  intros [H1 H2]%andb_prop. rewrite IH by done.
  destruct (Ascii.eqb x c) eqn:E; [|done].
  apply Ascii.eqb_eq in E. subst x.
  apply seg_char_plain in H1 as [H1 _]. congruence.
Qed.

Lemma seg_chars_safe s :
  str_forall seg_char s = true ->
  str_forall (fun a => negb (unsafe_byte a)) s = true.
Proof.
  apply str_forall_impl. intros a Ha.
  apply seg_char_plain in Ha as (_ & -> & _). done.
Qed.

(** ** Paths *)

Lemma dir_path_app l1 l2 : dir_path (l1 ++ l2) = dir_path l1 +:+ dir_path l2.
Proof.
  induction l1 as [|s l1 IH]; [done|].
  simpl. rewrite IH, append_cons. by rewrite append_assoc.
Qed.

Lemma good_segment_inv s :
  good_segment s = true ->
  exists a s', s = String a s' /\ seg_char a = true
               /\ str_forall seg_char s = true
               /\ String.eqb s "." = false /\ String.eqb s ".." = false.
Proof.
  unfold good_segment. intros H.
  apply andb_prop in H as [H H4]. apply andb_prop in H as [H H3].
  apply andb_prop in H as [H1 H2].
  apply negb_true_iff in H3, H4.
  destruct s as [|a s']; [done|].
  exists a, s'. repeat split; try done.
  simpl in H2. by apply andb_prop in H2 as [? _].
Qed.

(** Each character of a path is one of a segment, or a slash. *)
Lemma dir_path_chars q segs :
  (forall a, seg_char a = true -> q a = true) -> q "/"%char = true ->
  forallb good_segment segs = true ->
  str_forall q (dir_path segs) = true.
Proof.
  intros Hq Hs. induction segs as [|s segs IH]; simpl; [done|].
  intros [H1 H2]%andb_prop. rewrite Hs. simpl.
  rewrite str_forall_app, IH by done.
  apply good_segment_inv in H1 as (_ & _ & _ & _ & H & _).
  by rewrite (str_forall_impl _ _ _ Hq H).
Qed.

Lemma dir_path_contains c segs :
  str_contains c "?#:;[]" = true ->
  forallb good_segment segs = true ->
  str_contains c (dir_path segs) = false.
Proof.
  intros Hc. induction segs as [|s segs IH]; simpl; [done|].
  intros [H1 H2]%andb_prop.
  apply good_segment_inv in H1 as (_ & _ & _ & _ & H & _).
  rewrite str_contains_app, IH by done.
  rewrite (seg_chars_contain c s); [|ascii_cases c|done].
  ascii_cases c.
Qed.

(** ** The audio URL *)

Lemma seg_char_not_delim a c :
  str_contains c "/?#:;[]" = true -> seg_char a = true ->
  Ascii.eqb a c = false.
Proof.
  intros Hc Ha. destruct (Ascii.eqb a c) eqn:E; [|done].
  apply Ascii.eqb_eq in E. subst a.
  apply seg_char_plain in Ha as (Ha & _). congruence.
Qed.

Lemma seg_char_no_netloc_delim a :
  seg_char a = true -> str_contains a "/?#" = false.
Proof. ascii_cases a. Qed.

Section AudioUrl.
Variables (host : string) (seg : string) (segs : list string).
Hypothesis Hhost : str_forall seg_char host = true.
Hypothesis Hseg : good_segment seg = true.
Hypothesis Hsegs : forallb good_segment segs = true.

(** The path of the video URL, and facts about it. *)
Local Abbreviation P := (dir_path (seg :: segs)).

Lemma path_good : forallb good_segment (seg :: segs) = true.
Proof.
  change (good_segment seg && forallb good_segment segs = true).
  rewrite Hseg, Hsegs. reflexivity.
Qed.

Lemma path_lstrip : str_lstrip c0_control_or_space P = P.
Proof. reflexivity. Qed.

Lemma path_all_safe : str_forall (fun a => negb (unsafe_byte a)) P = true.
Proof.
  apply dir_path_chars; [| done | apply path_good].
  intros a Ha. apply seg_char_plain in Ha as (_ & -> & _). done.
Qed.

Lemma path_safe : str_filter (fun a => negb (unsafe_byte a)) P = P.
Proof. apply str_filter_all, path_all_safe. Qed.

Lemma path_no_delim c :
  str_contains c "?#:;[]" = true -> str_contains c P = false.
Proof. intros H. apply dir_path_contains; [done | apply path_good]. Qed.

Lemma path_one_slash : starts_with_2slash P = false.
Proof.
  destruct (good_segment_inv _ Hseg) as (a & s' & -> & Ha & _).
  simpl dir_path. rewrite append_cons.
  unfold starts_with_2slash.
  by rewrite (seg_char_not_delim a "/") by done.
Qed.

Lemma urlsplit_path :
  urlsplit P "" = inr (mkUrl "" "" P "" "" "").
Proof.
  unfold urlsplit. cbv zeta.
  rewrite path_lstrip. simpl str_lstrip. simpl str_rstrip.
  rewrite path_safe. simpl (str_filter _ "").
  rewrite (str_partition_none ":") by (by apply path_no_delim).
  rewrite path_one_slash. simpl (str_contains _ "").
  simpl xorb. cbv iota.
  rewrite (str_partition_none "#") by (by apply path_no_delim).
  rewrite (str_partition_none "?") by (by apply path_no_delim).
  reflexivity.
Qed.

Lemma urlparse_path :
  urlparse P "" = inr (mkUrl "" "" P "" "" "").
Proof.
  unfold urlparse. rewrite urlsplit_path.
  cbv beta iota delta [u_scheme u_path].
  rewrite (path_no_delim ";") by done.
  by rewrite andb_false_r.
Qed.

Lemma path_not_empty : str_empty P = false.
Proof. reflexivity. Qed.

(** The URL with the path [P], the host [host] and a query. *)
Lemma urlsplit_https query :
  str_forall (fun a => negb (unsafe_byte a)) query = true ->
  str_contains "#" query = false ->
  urlsplit ("https://" +:+ host +:+ P +:+ "?" +:+ query) ""
  = inr (mkUrl "https" host P "" query "").
Proof.
  intros Hq Hq'. unfold urlsplit. cbv zeta.
  change (str_lstrip c0_control_or_space
            ("https://" +:+ host +:+ P +:+ "?" +:+ query))
    with ("https://" +:+ host +:+ P +:+ "?" +:+ query).
  simpl str_lstrip. simpl str_rstrip. simpl (str_filter _ "").
  rewrite (str_filter_all _ ("https://" +:+ host +:+ P +:+ "?" +:+ query)).
  2:{ rewrite !str_forall_app. rewrite (seg_chars_safe host) by done.
      rewrite Hq, path_all_safe. reflexivity. }
  change (str_partition ":" ("https://" +:+ host +:+ P +:+ "?" +:+ query))
    with (Some ("https", "//" +:+ host +:+ P +:+ "?" +:+ query)).
  cbv iota beta.
  change ((is_upper "h" || is_lower "h") && str_forall scheme_char "https")
    with true.
  cbv iota.
  change (str_map to_lower "https") with "https".
  change (starts_with_2slash ("//" +:+ host +:+ P +:+ "?" +:+ query))
    with true.
  cbv iota.
  change ("//" +:+ host +:+ P +:+ "?" +:+ query)
    with (String "/" (String "/" (host +:+ P +:+ "?" +:+ query))).
  cbv iota.
  change (host +:+ P +:+ "?" +:+ query)
    with (host +:+ String "/" ((seg +:+ dir_path segs) +:+ "?" +:+ query)).
  rewrite str_break_app; [| |done].
  2:{ eapply str_forall_impl; [|exact Hhost]. intros a Ha.
      cbv beta. by rewrite seg_char_no_netloc_delim. }
  rewrite !(seg_chars_contain _ host) by done. simpl xorb. cbv iota.
  change (String "/" ((seg +:+ dir_path segs) +:+ "?" +:+ query))
    with (P +:+ String "?" query).
  rewrite (str_partition_none "#").
  2:{ rewrite str_contains_app, (path_no_delim "#") by done.
      exact Hq'. }
  rewrite (str_partition_app "?") by (by apply path_no_delim).
  reflexivity.
Qed.
End AudioUrl.

(** The same facts for a path given by a list of segments. *)
Lemma urlparse_dir_path l :
  l <> [] -> forallb good_segment l = true ->
  urlparse (dir_path l) "" = inr (mkUrl "" "" (dir_path l) "" "" "").
Proof.
  destruct l as [|seg segs]; [done|]. intros _ [H1 H2]%andb_prop.
  by apply urlparse_path.
Qed.

Lemma urlsplit_https_dir_path host l query :
  str_forall seg_char host = true ->
  l <> [] -> forallb good_segment l = true ->
  str_forall (fun a => negb (unsafe_byte a)) query = true ->
  str_contains "#" query = false ->
  urlsplit ("https://" +:+ host +:+ dir_path l +:+ "?" +:+ query) ""
  = inr (mkUrl "https" host (dir_path l) "" query "").
Proof.
  intros Hh. destruct l as [|seg segs]; [done|].
  intros _ [H1 H2]%andb_prop Hq Hq'. by apply urlsplit_https.
Qed.

Lemma dir_path_one_slash l :
  l <> [] -> forallb good_segment l = true ->
  starts_with_2slash (dir_path l) = false
  /\ starts_with_slash (dir_path l) = true
  /\ str_empty (dir_path l) = false.
Proof.
  destruct l as [|seg segs]; [done|]. intros _ [H1 H2]%andb_prop.
  split; [by apply path_one_slash | done].
Qed.

Lemma good_segment_no_slash s :
  good_segment s = true -> str_contains "/" s = false.
Proof.
  intros (_ & _ & _ & _ & H & _)%good_segment_inv.
  by apply (seg_chars_contain "/" s).
Qed.

Lemma str_split_no_sep c s : str_contains c s = false -> str_split c s = [s].
Proof.
  induction s as [|x s IH]; simpl; [done|].
  destruct (Ascii.eqb x c); [done|]. intros H. by rewrite IH.
Qed.

Lemma str_split_app c (s rest : string) :
  str_contains c s = false ->
  str_split c (s +:+ String c rest) = s :: str_split c rest.
Proof.
  induction s as [|x s IH]; [rewrite append_nil_l|rewrite append_cons];
    simpl.
  - by rewrite Ascii.eqb_refl.
  - destruct (Ascii.eqb x c); [done|]. intros H. by rewrite IH.
Qed.

Lemma str_split_dir_path l :
  forall s, str_contains "/" s = false -> forallb good_segment l = true ->
  str_split "/" (s +:+ dir_path l) = s :: l.
Proof.
  induction l as [|s2 l IH]; intros s Hs Hl.
  - simpl dir_path. rewrite append_nil_r. by apply str_split_no_sep.
  - simpl in Hl. apply andb_prop in Hl as [H1 H2].
    simpl dir_path. rewrite str_split_app by done.
    rewrite IH; [done | by apply good_segment_no_slash | done].
Qed.

Lemma str_split_path l :
  forallb good_segment l = true -> str_split "/" (dir_path l) = "" :: l.
Proof.
  intros H. rewrite <- (append_nil_l (dir_path l)).
  by apply str_split_dir_path.
Qed.

Lemma str_join_dir_path l :
  forall s, str_join "/" (s :: l) = s +:+ dir_path l.
Proof.
  induction l as [|s2 l IH]; intros s.
  - simpl. by rewrite append_nil_r.
  - change (str_join "/" (s :: s2 :: l))
      with (s +:+ "/" +:+ str_join "/" (s2 :: l)).
    rewrite IH. reflexivity.
Qed.

Lemma resolve_segments_plain l :
  forall acc,
    Forall (fun s => String.eqb s "." = false /\ String.eqb s ".." = false) l ->
    resolve_segments l acc = (acc ++ l)%list.
Proof.
  induction l as [|s l IH]; intros acc Hl; simpl.
  - by rewrite app_nil_r.
  - inversion Hl as [|? ? [H1 H2] Hl']; subst.
    rewrite H1, H2, IH by done. by rewrite <- app_assoc.
Qed.

Lemma good_segments_not_dots l :
  forallb good_segment l = true ->
  Forall (fun s => String.eqb s "." = false /\ String.eqb s ".." = false) l.
Proof.
  induction l as [|s l IH]; simpl; [constructor|].
  intros [H1 H2]%andb_prop. constructor; [|by apply IH].
  by apply good_segment_inv in H1 as (_ & _ & _ & _ & _ & ? & ?).
Qed.

Lemma good_segments_not_empty l :
  forallb good_segment l = true ->
  List.filter (fun s => negb (str_empty s)) l = l.
Proof.
  induction l as [|s l IH]; simpl; [done|].
  intros [H1 H2]%andb_prop. rewrite IH by done.
  by apply good_segment_inv in H1 as (a & s' & -> & _).
Qed.

Lemma filter_inner_good dirs file :
  forallb good_segment dirs = true ->
  filter_inner (("" :: dirs) ++ [file])%list = (("" :: dirs) ++ [file])%list.
Proof.
  intros H. unfold filter_inner.
  change (("" :: dirs) ++ [file])%list with ("" :: (dirs ++ [file]))%list.
  destruct (dirs ++ [file])%list as [|x r] eqn:E.
  { by destruct dirs. }
  rewrite <- E.
  rewrite removelast_last, last_last, good_segments_not_empty by done.
  reflexivity.
Qed.

(** [urljoin] replaces the last segment of a path. *)
Lemma urljoin_sibling dirs :
  forallb good_segment dirs = true ->
  urljoin (dir_path (dirs ++ ["DASH_240.mp4"])) "DASH_audio.mp4"
  = inr (dir_path (dirs ++ ["DASH_audio.mp4"])).
Proof.
  intros Hd.
  assert (forallb good_segment (dirs ++ ["DASH_240.mp4"]) = true) as Hl.
  { rewrite forallb_app, Hd. reflexivity. }
  assert ((dirs ++ ["DASH_240.mp4"])%list <> []) as Hne by (by destruct dirs).
  unfold urljoin.
  assert (str_empty (dir_path (dirs ++ ["DASH_240.mp4"])) = false) as ->.
  { by destruct dirs. }
  change (str_empty "DASH_audio.mp4") with false. cbv iota.
  rewrite urlparse_dir_path by done.
  change (urlparse "DASH_audio.mp4"
            (u_scheme (mkUrl "" "" (dir_path (dirs ++ ["DASH_240.mp4"]))
                         "" "" "")))
    with (@inr exn _ (mkUrl "" "" "DASH_audio.mp4" "" "" "")).
  cbv iota. simpl u_scheme. simpl u_netloc. simpl u_path. simpl u_params.
  simpl u_query. simpl u_fragment.
  rewrite str_split_path by done.
  change ("" :: dirs ++ ["DASH_240.mp4"])%list
    with (("" :: dirs) ++ ["DASH_240.mp4"])%list.
  rewrite last_last, removelast_last.
  change (str_empty "DASH_240.mp4") with false.
  change (starts_with_slash "DASH_audio.mp4") with false.
  change (str_split "/" "DASH_audio.mp4") with ["DASH_audio.mp4"].
  change (negb ("" =? "") || negb (bool_decide ("" ∈ uses_relative)))
    with false.
  change (bool_decide ("" ∈ uses_netloc)) with true.
  change (str_empty "DASH_audio.mp4") with false.
  change (str_empty "") with true.
  cbv iota. simpl negb. simpl andb. cbv iota.
  rewrite filter_inner_good by done.
  rewrite last_last.
  change (("DASH_audio.mp4" =? ".") || ("DASH_audio.mp4" =? "..")) with false.
  cbv iota.
  rewrite resolve_segments_plain.
  2:{ constructor; [done|]. apply good_segments_not_dots.
      rewrite forallb_app, Hd. reflexivity. }
  rewrite app_nil_l.
  change (("" :: dirs) ++ ["DASH_audio.mp4"])%list
    with ("" :: (dirs ++ ["DASH_audio.mp4"]))%list.
  rewrite str_join_dir_path, append_nil_l.
  assert (str_empty (dir_path (dirs ++ ["DASH_audio.mp4"])) = false) as ->.
  { by destruct dirs. }
  reflexivity.
Qed.

Lemma splitext_dash dirs :
  forallb good_segment dirs = true ->
  splitext_ext (dir_path (dirs ++ ["DASH_240.mp4"])) = ".mp4".
Proof.
  intros Hd. unfold splitext_ext. rewrite dir_path_app.
  change (dir_path ["DASH_240.mp4"]) with (String "/" "DASH_240.mp4").
  rewrite str_rpartition_app by reflexivity. reflexivity.
Qed.

Lemma video_url_shape host dirs :
  "https://" +:+ host +:+ dir_path dirs +:+ "/DASH_240.mp4?source=x"
  = "https://" +:+ host +:+ dir_path (dirs ++ ["DASH_240.mp4"]) +:+ "?"
    +:+ "source=x".
Proof.
  rewrite dir_path_app.
  change (dir_path ["DASH_240.mp4"]) with "/DASH_240.mp4".
  by rewrite !append_assoc.
Qed.

(** The audio URL of a fallback URL [https://host/dirs/DASH_240.mp4?source=x]
    is [https://host/dirs/DASH_audio.mp4]. *)
Lemma audio_url_of_dash host dirs :
  str_forall seg_char host = true ->
  forallb good_segment dirs = true ->
  audio_url_of
    ("https://" +:+ host +:+ dir_path dirs +:+ "/DASH_240.mp4?source=x")
  = inr ("https://" +:+ host +:+ dir_path dirs +:+ "/DASH_audio.mp4").
Proof.
  intros Hh Hd.
  assert (forallb good_segment (dirs ++ ["DASH_240.mp4"]) = true) as Hl.
  { rewrite forallb_app, Hd. reflexivity. }
  assert (forallb good_segment (dirs ++ ["DASH_audio.mp4"]) = true) as Hl'.
  { rewrite forallb_app, Hd. reflexivity. }
  assert ((dirs ++ ["DASH_240.mp4"])%list <> []) as Hne by (by destruct dirs).
  assert ((dirs ++ ["DASH_audio.mp4"])%list <> []) as Hne'
    by (by destruct dirs).
  unfold audio_url_of.
  rewrite video_url_shape, urlsplit_https_dir_path by done.
  simpl u_path. simpl u_scheme. simpl u_netloc.
  rewrite splitext_dash by done.
  change (".mp4" =? ".mp4") with true. cbv iota.
  rewrite urljoin_sibling by done.
  unfold urlunsplit. cbv zeta.
  simpl u_path. simpl u_scheme. simpl u_netloc. simpl u_query.
  simpl u_fragment.
  destruct (dir_path_one_slash _ Hne' Hl') as (-> & -> & ->).
  change (negb (str_empty "https") && bool_decide ("https" ∈ uses_netloc)
          && negb false) with true.
  rewrite orb_true_r. cbv iota.
  simpl negb. simpl andb. cbv iota.
  rewrite dir_path_app.
  change (dir_path ["DASH_audio.mp4"]) with "/DASH_audio.mp4".
  reflexivity.
Qed.

(** C5. The audio track of a native video.
    - For the fallback URL [https://host/dirs/DASH_240.mp4?source=x] the
      candidate audio URL is [https://host/dirs/DASH_audio.mp4]: the last
      segment of the path is replaced, and there is no query and no
      fragment.
    - When the [HEAD] request for the candidate URL returns a status other
      than 200, [get_video] returns the reference of the video with no
      audio URL; the request is the only event of the call. *)
Theorem get_video_audio_url :
  (forall host dirs,
     str_forall seg_char host = true ->
     forallb good_segment dirs = true ->
     audio_url_of
       ("https://" +:+ host +:+ dir_path dirs +:+ "/DASH_240.mp4?source=x")
     = inr ("https://" +:+ host +:+ dir_path dirs +:+ "/DASH_audio.mp4"))
  /\ (forall env self media video audio_url status_code s,
        art_media self = Some media ->
        media_reddit_video media = Some video ->
        is_gif video = false ->
        audio_url_of (fallback_url video) = inr audio_url ->
        head_status env audio_url = inr status_code ->
        status_code <> 200%Z ->
        get_video env self s
        = (Returns (mkVideoRef (art_title self) (art_author self)
                      (fallback_url video) None
                      (inject_Z (duration video))),
           add_log s [EvHead audio_url])).
Proof.
  split; [apply audio_url_of_dash|].
  intros env self media video audio_url status_code s Hm Hv Hg Ha Hh Hs.
  unfold get_video, has_video. rewrite Hm, Hv, Hg. simpl. rewrite Ha.
  unfold bind, requests_head, bind, emit, ret. simpl. rewrite Hh.
  apply Z.eqb_neq in Hs. rewrite Hs. reflexivity.
Qed.

Lemma get_video_audio_url_witness :
  audio_url_of "https://v.redd.it/abc123/DASH_240.mp4?source=x"
  = inr "https://v.redd.it/abc123/DASH_audio.mp4"
  /\ get_video env_reddit (RedditArticle_init sub_video) state0
     = (Returns (mkVideoRef "A video" (Some "alice")
                   "https://v.redd.it/abc123/DASH_240.mp4?source=x" None
                   (inject_Z 10)),
        add_log state0 [EvHead "https://v.redd.it/abc123/DASH_audio.mp4"]).
Proof.
  split.
  - apply (proj1 get_video_audio_url "v.redd.it" ["abc123"]); reflexivity.
  - apply (proj2 get_video_audio_url env_reddit
             (RedditArticle_init sub_video)
             (mkMedia (Some native_video) None) native_video
             "https://v.redd.it/abc123/DASH_audio.mp4" 404%Z state0);
      first [reflexivity | lia].
Defined.

(** ** reddit.py: the comments *)

(** The body of [_expand_comment]. *)
Lemma expand_unfold comment praw_comment max_depth percent_thres (h : heap) :
  _expand_comment comment praw_comment max_depth percent_thres h
  = if Z_le_gt_dec max_depth 0 then h
    else match best_reply_of (praw_replies praw_comment) with
         | None => h
         | Some best_reply =>
             if gt_scaled (praw_score best_reply) (score_get comment h)
                  percent_thres
             then
               let (child, h1) := from_praw best_reply h in
               let h2 := child_set comment (Some child) h1 in
               _expand_comment child best_reply (max_depth - 1)
                 percent_thres h2
             else h
         end.
Proof.
  funelim (_expand_comment comment praw_comment max_depth percent_thres h);
    try clear Heqcall;
    repeat match goal with
           | H : ?x = _ |- context [?x] => rewrite H
           end;
    reflexivity.
Qed.

(** *** The best reply *)



(** *** The heap *)

Lemma fresh_lookup (h : heap) : h !! fresh (dom h) = None.
Proof. apply not_elem_of_dom, is_fresh. Qed.

Lemma from_praw_spec praw_comment (h : heap) :
  let l := fresh (dom h) in
  h !! l = None
  /\ from_praw praw_comment h
     = (l, <[l := mkComment (praw_author praw_comment)
                   (praw_body praw_comment) (praw_score praw_comment) None]> h).
Proof. split; [apply fresh_lookup | reflexivity]. Qed.

(** A chain stays a chain in a heap that has the same objects and more. *)
Lemma chain_mono (h h' : heap) l ds :
  (forall l o, h !! l = Some o -> h' !! l = Some o) ->
  chain h l ds -> chain h' l ds.
Proof.
  intros Hsub. induction 1 as [l o H1 H2 | l o l' ds H1 H2 _ IH].
  - apply chain_last; [by apply Hsub | done].
  - eapply chain_next; [by apply Hsub | done | done].
Qed.

Lemma chain_functional (h : heap) l ds1 ds2 :
  chain h l ds1 -> chain h l ds2 -> ds1 = ds2.
Proof.
  intros H. revert ds2.
  induction H as [l o H1 H2 | l o l' ds H1 H2 _ IH]; intros ds2 H';
    inversion H' as [l0 o0 H3 H4 | l0 o0 l0' ds0 H3 H4 H5]; subst;
    rewrite H1 in H3; injection H3 as <-; try congruence.
  rewrite H2 in H4. injection H4 as <-. f_equal. by apply IH.
Qed.

(** *** The expansion *)





Lemma expand_loop_cons depth thres p rest comments (h : heap) :
  expand_loop depth thres (p :: rest) comments h
  = let (comment, h1) := from_praw p h in
    match praw_author p with
    | None => expand_loop depth thres rest comments h1
    | Some _ =>
        if String.eqb (praw_body p) "[deleted]"
        then expand_loop depth thres rest comments h1
        else expand_loop depth thres rest (comments ++ [comment])
               (_expand_comment comment p depth thres h1)
    end.
Proof. reflexivity. Qed.




(** *** The property [child] *)

(** C9. Reading [child] of a comment that has a child.
    - The value is a new object, not the stored child, with the attributes
      of the stored child; the objects of the heap are as before.
    - After the child of the returned object is set to any value, every
      object of the heap of before the reading is unchanged, so the chain
      of the comment is the same, and a second reading of [child] returns
      an object with the attributes of the stored child and its chain. *)
Theorem child_is_a_copy (h : gmap loc RedditComment) self o stored oc :
  h !! self = Some o -> _child o = Some stored -> h !! stored = Some oc ->
  exists r h1,
    child_get self h = (Some r, h1)
    /\ r <> stored /\ h !! r = None /\ h1 !! r = Some oc
    /\ (forall l, l <> r -> h1 !! l = h !! l)
    /\ forall new_child,
         let h2 := child_set r new_child h1 in
         (forall l, l <> r -> h2 !! l = h !! l)
         /\ (forall ds, chain h self ds -> chain h2 self ds)
         /\ exists r' h3,
              child_get self h2 = (Some r', h3)
              /\ r' <> stored /\ r' <> r
              /\ h3 !! r' = Some oc
              /\ (forall ds, chain h stored ds -> chain h3 r' ds).
Proof.
  intros Ho Hc Hoc.
  set (r := fresh (dom h)).
  assert (h !! r = None) as Hr by apply fresh_lookup.
  exists r, (<[r := oc]> h).
  assert (r <> stored) as Hrs by (intros E; congruence).
  assert (r <> self) as Hrself by (intros E; congruence).
  split; [|split; [done|split; [done|split; [apply lookup_insert_eq|split]]]].
  { unfold child_get, copy. rewrite Ho, Hc, Hoc. reflexivity. }
  { intros l Hl. by rewrite lookup_insert_ne. }
  intros new_child. cbv zeta.
  unfold child_set. rewrite lookup_insert_eq, insert_insert_eq.
  set (oc' := mkComment (_author oc) (_text oc) (_score oc) new_child).
  set (h2 := <[r := oc']> h).
  assert (forall l x, h !! l = Some x -> h2 !! l = Some x) as Hsub.
  { intros l x Hl. unfold h2. rewrite lookup_insert_ne; [done|].
    intros <-. congruence. }
  split; [|split].
  - intros l Hl. unfold h2. by rewrite lookup_insert_ne.
  - intros ds. by apply chain_mono.
  - set (r' := fresh (dom h2)).
    assert (h2 !! r' = None) as Hr' by apply fresh_lookup.
    exists r', (<[r' := oc]> h2).
    assert (r' <> stored) as Hr's.
    { intros E. rewrite E, (Hsub _ _ Hoc) in Hr'. done. }
    assert (r' <> r) as Hr'r.
    { intros E. rewrite E in Hr'. unfold h2 in Hr'.
      by rewrite lookup_insert_eq in Hr'. }
    split; [|split; [done|split; [done|split; [apply lookup_insert_eq|]]]].
    + unfold child_get, copy.
      rewrite (Hsub _ _ Ho), Hc, (Hsub _ _ Hoc). reflexivity.
    + intros ds Hds.
      assert (forall l x, h !! l = Some x -> <[r' := oc]> h2 !! l = Some x)
        as Hsub'.
      { intros l x Hl. rewrite lookup_insert_ne; [by apply Hsub|].
        intros <-. rewrite (Hsub _ _ Hl) in Hr'. done. }
      inversion Hds as [l0 o0 H1 H2 | l0 o0 l' ds' H1 H2 H3]; subst;
        rewrite Hoc in H1; injection H1 as <-.
      * apply chain_last; [apply lookup_insert_eq | done].
      * eapply chain_next; [apply lookup_insert_eq | exact H2 |].
        by eapply chain_mono.
Qed.

Lemma child_is_a_copy_witness :
  exists r h1,
    child_get 0%nat heap_chain = (Some r, h1)
    /\ r <> 1%nat /\ heap_chain !! r = None
    /\ h1 !! r = Some (mkComment (Some "bea") "first" 6 None)
    /\ (forall l, l <> r -> h1 !! l = heap_chain !! l)
    /\ forall new_child,
         let h2 := child_set r new_child h1 in
         (forall l, l <> r -> h2 !! l = heap_chain !! l)
         /\ (forall ds, chain heap_chain 0%nat ds -> chain h2 0%nat ds)
         /\ exists r' h3,
              child_get 0%nat h2 = (Some r', h3)
              /\ r' <> 1%nat /\ r' <> r
              /\ h3 !! r' = Some (mkComment (Some "bea") "first" 6 None)
              /\ (forall ds, chain heap_chain 1%nat ds -> chain h3 r' ds).
Proof.
  apply (child_is_a_copy heap_chain 0%nat
           (mkComment (Some "ann") "top" 10 (Some 1%nat)) 1%nat
           (mkComment (Some "bea") "first" 6 None));
    reflexivity.
Defined.

(** ** youtube.py: further properties of the upload *)

Lemma try_next_chunk_state c error s :
  snd (try_next_chunk c error s) = add_log s [EvNextChunk].
Proof.
  unfold try_next_chunk, try_except, next_chunk, bind, emit, ret, raise.
  simpl. destruct c as [[r|]|e]; simpl.
  - by destruct (resp_id r).
  - done.
  - destruct e; simpl; try done.
    by destruct (bool_decide _).
Qed.

Lemma upload_ready_eq env p t d ts cat privacy_status s :
  upload_ready env p cat privacy_status ->
  upload env (PyStr p) (PyStr t) (PyStr d) (PySet ts) (PyInt cat)
    privacy_status s
  = (video_id <- _resumable_upload env (insert_request env) ;;
     ret (PyStr video_id))%py (add_log s (upload_prelude p)).
Proof.
  intros (Hf & Hc & Hp & He & (c & Hs & Hi) & Hb).
  rewrite upload_checked by done. unfold bind at 1.
  rewrite (get_creds_some env c) by done.
  unfold bind at 1, build, bind at 1, emit, ret. rewrite Hb. simpl.
  unfold add_log, upload_prelude. simpl. by rewrite <- !app_assoc.
Qed.

Lemma upload_loop_step env c rest error retry s :
  upload_loop env (c :: rest) error retry s
  = match try_next_chunk c error s with
    | (Returns (inl id), s1) => (Returns id, s1)
    | (Returns (inr (Some msg)), s1) =>
        match backoff env msg retry s1 with
        | (Returns retry', s2) => upload_loop env rest (Some msg) retry' s2
        | (Raises e, s2) => (Raises e, s2)
        | (Pending, s2) => (Pending, s2)
        end
    | (Returns (inr None), s1) => upload_loop env rest None retry s1
    | (Raises e, s1) => (Raises e, s1)
    | (Pending, s1) => (Pending, s1)
    end.
Proof.
  simpl. unfold bind at 1.
  destruct (try_next_chunk c error s) as [[[id|[msg|]]|e|] s1]; try done.
Qed.

Lemma backoff_cases env msg retry s :
  ((_MAX_RETRIES < retry + 1)%Z
   /\ backoff env msg retry s
      = (Raises retries_exhausted, add_log s [EvPrint msg]))
  \/ ((retry + 1 <= _MAX_RETRIES)%Z
      /\ backoff env msg retry s
         = (Returns (retry + 1)%Z,
            mkState
              (log s ++ [EvPrint msg; EvRandom;
                         EvSleep (random_random env (draws s)
                                  * inject_Z (2 ^ (retry + 1)))])
              (S (draws s)) (ticks s))).
Proof.
  destruct (Z_lt_le_dec _MAX_RETRIES (retry + 1)) as [H|H].
  - left. split; [done|]. by apply backoff_exhausted.
  - right. split; [done|]. by apply backoff_sleeps.
Qed.

Lemma pow2_step (n : Z) : (0 <= n)%Z -> (2 ^ (n + 1) = 2 * 2 ^ n)%Z.
Proof. intros H. rewrite Z.pow_add_r by lia. lia. Qed.

Ltac loop_stops :=
  repeat split;
  first [ done | lia | unfold chunk_calls; simpl; lia
        | intros _; simpl; change 0%Q with (inject_Z 0);
          rewrite <- Zle_Qle; lia ].

(** What a run of the loop adds to the state, from a counter [retry]. *)
Lemma upload_loop_inv env request :
  forall error retry s o s',
    (0 <= retry)%Z ->
    upload_loop env request error retry s = (o, s') ->
    exists es,
      s' = mkState (log s ++ es) (draws s + length (sleeps es)) (ticks s)
      /\ (length (sleeps es) <= Z.to_nat (_MAX_RETRIES - retry))%nat
      /\ (chunk_calls es <= length request)%nat
      /\ existsb is_cred_check es = false
      /\ ((forall i, (0 <= random_random env i)%Q
                     /\ (random_random env i < 1)%Q) ->
          (Qsum (sleeps es)
           <= inject_Z (Z.max 0 (2 ^ 11 - 2 ^ (retry + 1))))%Q).
Proof.
  induction request as [|c rest IH]; intros error retry s o s' Hr Hrun.
  - simpl in Hrun. injection Hrun as <- <-. exists [].
    destruct s; simpl. rewrite app_nil_r, Nat.add_0_r. loop_stops.
  - rewrite upload_loop_step in Hrun.
    pose proof (try_next_chunk_state c error s) as Hs1.
    destruct (try_next_chunk c error s) as [r s1]. simpl in Hs1. subst s1.
    assert (exists es,
              add_log s [EvNextChunk]
              = mkState (log s ++ es) (draws s + length (sleeps es)) (ticks s)
              /\ (length (sleeps es) <= Z.to_nat (_MAX_RETRIES - retry))%nat
              /\ (chunk_calls es <= length (c :: rest))%nat
              /\ existsb is_cred_check es = false
              /\ ((forall i, (0 <= random_random env i)%Q
                             /\ (random_random env i < 1)%Q) ->
                  (Qsum (sleeps es)
                   <= inject_Z (Z.max 0 (2 ^ 11 - 2 ^ (retry + 1))))%Q))
      as Hstop.
    { exists [EvNextChunk]. unfold add_log. simpl. rewrite Nat.add_0_r.
      loop_stops. }
    destruct r as [[id|[msg|]]|e|].
    + injection Hrun as <- <-. exact Hstop.
    + destruct (backoff_cases env msg retry (add_log s [EvNextChunk]))
        as [[Hm Hb]|[Hm Hb]]; rewrite Hb in Hrun.
      * injection Hrun as <- <-. exists [EvNextChunk; EvPrint msg].
        unfold add_log. simpl. rewrite Nat.add_0_r, <- app_assoc.
        loop_stops.
      * apply IH in Hrun as (es & -> & H1 & H2 & H3 & H4); [|lia].
        set (d := (random_random env (draws (add_log s [EvNextChunk]))
                   * inject_Z (2 ^ (retry + 1)))%Q) in *.
        exists ([EvNextChunk; EvPrint msg; EvRandom; EvSleep d] ++ es)%list.
        simpl. rewrite <- !app_assoc. simpl.
        unfold _MAX_RETRIES in *.
        split; [f_equal; lia|]. split; [lia|]. split; [unfold chunk_calls in *; simpl; lia|].
        split; [done|].
        intros Hrand. specialize (H4 Hrand).
        destruct (backoff_range (random_random env (draws s)) (retry + 1))
          as [_ Hd]; [lia | apply Hrand | apply Hrand |].
        fold d in Hd. unfold d at 1. simpl draws.
        rewrite Z.max_r in H4.
        2:{ assert (2 ^ (retry + 1 + 1) <= 2 ^ 11)%Z
              by (apply Z.pow_le_mono_r; lia). lia. }
        rewrite Z.max_r.
        2:{ assert (2 ^ (retry + 1) <= 2 ^ 11)%Z
              by (apply Z.pow_le_mono_r; lia). lia. }
        eapply Qle_trans.
        { apply Qplus_le_compat; [apply Qlt_le_weak, Hd | exact H4]. }
        rewrite <- inject_Z_plus, <- Zle_Qle.
        rewrite (pow2_step (retry + 1)) by lia. lia.
    + apply IH in Hrun as (es & -> & H1 & H2 & H3 & H4); [|lia].
      exists (EvNextChunk :: es). simpl. rewrite <- app_assoc. simpl.
      split; [done|]. split; [done|].
      split; [unfold chunk_calls in *; simpl; lia|]. split; [done|]. done.
    + injection Hrun as <- <-. exact Hstop.
    + injection Hrun as <- <-. exact Hstop.
Qed.

Lemma get_creds_spec env s :
  exists es r,
    _get_creds env _OAUTH_FILE s = (Returns r, add_log s es)
    /\ forallb is_cred_check es = true
    /\ sleeps es = []
    /\ (r = None <-> no_valid_credential env)
    /\ (path_exists env _OAUTH_FILE = false -> es = [EvExists _OAUTH_FILE]).
Proof.
  unfold _get_creds, os_path_exists, Storage_get, bind, emit, ret,
    no_valid_credential; simpl.
  destruct (path_exists env _OAUTH_FILE) eqn:E1; simpl.
  - destruct (storage_get env _OAUTH_FILE) as [c|] eqn:E2.
    + destruct (invalid c) eqn:E3; simpl.
      * exists [EvExists _OAUTH_FILE; EvStorageGet _OAUTH_FILE], None.
        unfold add_log; simpl. rewrite <- app_assoc.
        repeat split; try done. intros _. right; right. by exists c.
      * exists [EvExists _OAUTH_FILE; EvStorageGet _OAUTH_FILE], (Some c).
        unfold add_log; simpl. rewrite <- app_assoc.
        repeat split; try done.
        intros [H|[H|(c' & H1 & H2)]]; congruence.
    + exists [EvExists _OAUTH_FILE; EvStorageGet _OAUTH_FILE], None.
      unfold add_log; simpl. rewrite <- app_assoc.
      repeat split; try done. intros _. by right; left.
  - exists [EvExists _OAUTH_FILE], None.
    repeat split; try done. intros _. by left.
Qed.

(** The events of any call of [upload]. *)
Lemma upload_events env path title desc tags category privacy_status s :
  exists es,
    snd (upload env path title desc tags category privacy_status s)
    = mkState (log s ++ es) (draws s + length (sleeps es)) (ticks s)
    /\ (length (sleeps es) <= 10)%nat
    /\ (chunk_calls es <= length (insert_request env))%nat
    /\ ((forall i, (0 <= random_random env i)%Q
                   /\ (random_random env i < 1)%Q) ->
        (Qsum (sleeps es) <= 2046)%Q)
    /\ (existsb is_network es = true ->
        (exists p cat,
           path = PyStr p /\ category = PyInt cat
           /\ isfile env p = true /\ (0 < cat)%Z)
        /\ type title = TStr /\ type desc = TStr /\ type tags = TSet
        /\ in_valid_privacy_statuses privacy_status = true
        /\ ~ no_valid_credential env).
Proof.
  assert (forall (es0 : list event) (s1 : state),
            sleeps es0 = [] -> chunk_calls es0 = 0%nat ->
            existsb is_network es0 = false -> s1 = add_log s es0 ->
            exists es,
              s1
              = mkState (log s ++ es) (draws s + length (sleeps es)) (ticks s)
              /\ (length (sleeps es) <= 10)%nat
              /\ (chunk_calls es <= length (insert_request env))%nat
              /\ ((forall i, (0 <= random_random env i)%Q
                             /\ (random_random env i < 1)%Q) ->
                  (Qsum (sleeps es) <= 2046)%Q)
              /\ (existsb is_network es = true ->
                  (exists p cat,
                     path = PyStr p /\ category = PyInt cat
                     /\ isfile env p = true /\ (0 < cat)%Z)
                  /\ type title = TStr /\ type desc = TStr /\ type tags = TSet
                  /\ in_valid_privacy_statuses privacy_status = true
                  /\ ~ no_valid_credential env)) as Hquiet.
  { intros es0 s1 H1 H2 H3 ->. exists es0. unfold add_log.
    rewrite H1, H2, H3. simpl. rewrite Nat.add_0_r.
    repeat split; try done; try lia. }
  assert (s = add_log s []) as Hs0 by (by rewrite add_log_nil).
  unfold upload.
  destruct (pytype_eqb (type path) TStr) eqn:E1; simpl;
    [|by apply (Hquiet [])].
  destruct (pytype_eqb (type title) TStr) eqn:E2; simpl;
    [|by apply (Hquiet [])].
  destruct (pytype_eqb (type desc) TStr) eqn:E3; simpl;
    [|by apply (Hquiet [])].
  destruct (pytype_eqb (type tags) TSet) eqn:E4; simpl;
    [|by apply (Hquiet [])].
  destruct (pytype_eqb (type category) TInt) eqn:E5; simpl;
    [|by apply (Hquiet [])].
  apply pytype_eqb_eq in E1, E2, E3, E4, E5.
  destruct (well_typed_args path category E1 E5) as (p & cat & -> & ->).
  unfold bind at 1, os_path_isfile, bind at 1, emit, ret. simpl.
  fold (add_log s [EvIsFile p]).
  destruct (isfile env p) eqn:Ef; simpl; [|by apply (Hquiet [EvIsFile p])].
  destruct (cat <=? 0)%Z eqn:Ec; simpl; [by apply (Hquiet [EvIsFile p])|].
  apply Z.leb_gt in Ec.
  destruct (in_valid_privacy_statuses privacy_status) eqn:Ep; simpl;
    [|by apply (Hquiet [EvIsFile p])].
  unfold bind at 1.
  destruct (get_creds_spec env (add_log s [EvIsFile p]))
    as (ces & r & -> & Hc1 & Hc2 & Hc3 & _).
  rewrite add_log_app.
  destruct r as [c|].
  2:{ unfold ret. simpl. apply (Hquiet (EvIsFile p :: ces)); [| | |done].
      - simpl. exact Hc2.
      - unfold chunk_calls. simpl. clear -Hc1.
        induction ces as [|e ces IH]; [done|]. simpl in *.
        apply andb_prop in Hc1 as [H1 H2]. destruct e; try done; by apply IH.
      - simpl. by apply cred_checks_no_network. }
  assert (~ no_valid_credential env) as Hcred.
  { intros H. apply Hc3 in H. done. }
  assert (chunk_calls (EvIsFile p :: ces) = 0%nat) as Hcc.
  { unfold chunk_calls. simpl. clear -Hc1.
    induction ces as [|e ces IH]; [done|]. simpl in *.
    apply andb_prop in Hc1 as [H1 H2]. destruct e; try done; by apply IH. }
  assert (forall es0 : list event,
            sleeps es0 = [] -> chunk_calls es0 = 0%nat ->
            exists es,
              add_log s es0
              = mkState (log s ++ es) (draws s + length (sleeps es)) (ticks s)
              /\ (length (sleeps es) <= 10)%nat
              /\ (chunk_calls es <= length (insert_request env))%nat
              /\ ((forall i, (0 <= random_random env i)%Q
                             /\ (random_random env i < 1)%Q) ->
                  (Qsum (sleeps es) <= 2046)%Q)
              /\ (existsb is_network es = true ->
                  (exists p0 cat0,
                     PyStr p = PyStr p0 /\ PyInt cat = PyInt cat0
                     /\ isfile env p0 = true /\ (0 < cat0)%Z)
                  /\ type title = TStr /\ type desc = TStr /\ type tags = TSet
                  /\ true = true
                  /\ ~ no_valid_credential env)) as Hok.
  { intros es0 H1 H2. exists es0. unfold add_log.
    rewrite H1, H2. simpl. rewrite Nat.add_0_r.
    repeat split; try done; try lia. by exists p, cat. }
  unfold bind at 1, build, bind at 1, emit, ret. simpl.
  destruct (build_raises env) as [e|]; simpl.
  { rewrite <- app_assoc. apply (Hok ((EvIsFile p :: ces) ++ [EvBuild])%list).
    - rewrite sleeps_app. simpl. by rewrite Hc2.
    - unfold chunk_calls in *. rewrite List.filter_app, length_app, Hcc. done. }
  unfold bind, _resumable_upload.
  match goal with |- context [upload_loop env _ None 0 ?s0] =>
    destruct (upload_loop env (insert_request env) None 0 s0) as [o s'] eqn:Er;
    apply upload_loop_inv in Er as (es & -> & H1 & H2 & H3 & H4); [|lia]
  end.
  exists ((EvIsFile p :: ces) ++ [EvBuild] ++ es)%list.
  assert (sleeps ((EvIsFile p :: ces) ++ [EvBuild] ++ es) = sleeps es) as Hsl.
  { rewrite sleeps_app. simpl. by rewrite Hc2. }
  rewrite Hsl. split.
  { destruct o; simpl; rewrite <- !app_assoc; simpl; reflexivity. }
  split; [unfold _MAX_RETRIES in H1; lia|]. split.
  { unfold chunk_calls in *. rewrite List.filter_app, length_app, Hcc.
    simpl. lia. }
  split.
  { intros Hrand. specialize (H4 Hrand). simpl in H4. exact H4. }
  intros _. repeat split; try done. by exists p, cat.
Qed.

(** X1. [upload] sleeps at most ten times, whatever its arguments and
    whatever the request does, and it asks for no more chunks than the
    request has outcomes. *)
Theorem upload_backoff_count env path title desc tags category
    privacy_status s :
  exists es,
    log (snd (upload env path title desc tags category privacy_status s))
    = (log s ++ es)%list
    /\ (length (sleeps es) <= 10)%nat
    /\ (chunk_calls es <= length (insert_request env))%nat.
Proof.
  destruct (upload_events env path title desc tags category privacy_status s)
    as (es & -> & H1 & H2 & _).
  exists es. done.
Qed.

(** X2. When [random.random()] returns values in [[0, 1)], the sleeps of
    one call of [upload] add up to at most 2046 seconds, the sum of the
    powers of two from [2^1] to [2^10]. *)
Theorem upload_backoff_total env path title desc tags category
    privacy_status s :
  (forall i, (0 <= random_random env i)%Q /\ (random_random env i < 1)%Q) ->
  exists es,
    log (snd (upload env path title desc tags category privacy_status s))
    = (log s ++ es)%list
    /\ (Qsum (sleeps es) <= 2046)%Q.
Proof.
  intros Hrand.
  destruct (upload_events env path title desc tags category privacy_status s)
    as (es & -> & _ & _ & H & _).
  exists es. split; [done | by apply H].
Qed.

Lemma upload_backoff_total_witness :
  exists es,
    log (snd (upload env_retry (PyStr video_file) (PyStr "title") (PyStr "")
                (PySet []) (PyInt 22) (PyStr "unlisted") state0))
    = (log state0 ++ es)%list
    /\ (Qsum (sleeps es) <= 2046)%Q.
Proof.
  apply (upload_backoff_total env_retry (PyStr video_file) (PyStr "title")
           (PyStr "") (PySet []) (PyInt 22) (PyStr "unlisted") state0).
  intros i. split; vm_compute; congruence.
Defined.

(** X3. [upload] uses the network only after all its checks: when a call
    has built the service or asked for a chunk, then [path] is a string
    that names a file, [title] and [desc] are strings, [tags] is a set,
    [category] is a positive integer, the privacy status is one of the
    three values, and a valid credential is stored. *)
Theorem upload_network_after_checks env path title desc tags category
    privacy_status s :
  exists es,
    log (snd (upload env path title desc tags category privacy_status s))
    = (log s ++ es)%list
    /\ (existsb is_network es = true ->
        (exists p cat,
           path = PyStr p /\ category = PyInt cat
           /\ isfile env p = true /\ (0 < cat)%Z)
        /\ type title = TStr /\ type desc = TStr /\ type tags = TSet
        /\ in_valid_privacy_statuses privacy_status = true
        /\ ~ no_valid_credential env).
Proof.
  destruct (upload_events env path title desc tags category privacy_status s)
    as (es & -> & _ & _ & _ & H).
  exists es. done.
Qed.

Lemma upload_network_after_checks_witness :
  (exists p cat,
     PyStr video_file = PyStr p /\ PyInt 22 = PyInt cat
     /\ isfile env_retry p = true /\ (0 < cat)%Z)
  /\ type (PyStr "title") = TStr /\ type (PyStr "") = TStr
  /\ type (PySet []) = TSet
  /\ in_valid_privacy_statuses (PyStr "unlisted") = true
  /\ ~ no_valid_credential env_retry.
Proof.
  destruct (upload_network_after_checks env_retry (PyStr video_file)
              (PyStr "title") (PyStr "") (PySet []) (PyInt 22)
              (PyStr "unlisted") state0) as (es & Hlog & H).
  apply H. vm_compute in Hlog. subst es. reflexivity.
Defined.

(** X4. With a request whose first outcome is a fault that is not
    retried, [upload] raises [UploadException] after this one chunk and
    without a sleep: an HTTP fault with a status other than 500, 502, 503
    and 504, a final response without ["id"] (its [UploadException] is
    caught by the last [except] clause and wrapped again), or any other
    exception that is neither an [HttpLib2Error] nor an [IOError]. *)
Theorem upload_fails_fast env p t d ts cat privacy_status c rest s :
  upload_ready env p cat privacy_status ->
  insert_request env = c :: rest ->
  let r := upload env (PyStr p) (PyStr t) (PyStr d) (PySet ts) (PyInt cat)
             privacy_status s in
  let s' := add_log s (upload_prelude p ++ [EvNextChunk]) in
  (forall status content,
     c = ChunkRaises (HttpError status content) ->
     ~ In status _RETRIABLE_STATUS_CODES ->
     r = (Raises (UploadException
                    ("An HTTP error " +:+ pretty status +:+ " occurred: "
                     +:+ content)), s'))
  /\ (forall response,
        c = ChunkReturns (Some response) -> resp_id response = None ->
        r = (Raises (UploadException
                       ("An unexpected error occurred: "
                        +:+ "The upload failed with an unexpected response: "
                        +:+ resp_repr response)), s'))
  /\ (forall e,
        c = ChunkRaises e -> (forall st ct, e <> HttpError st ct) ->
        is_retriable_exception e = false ->
        r = (Raises (UploadException
                       ("An unexpected error occurred: " +:+ exn_str e)),
             s')).
Proof.
  intros Hready Hreq. cbv zeta.
  rewrite upload_ready_eq by done. rewrite Hreq.
  unfold bind at 1, _resumable_upload. rewrite upload_loop_step.
  rewrite <- add_log_app.
  set (s0 := add_log s (upload_prelude p)).
  split; [|split].
  - intros status content -> Hst.
    unfold try_next_chunk, try_except, next_chunk, bind, emit, raise. simpl.
    rewrite bool_decide_eq_false_2; [done|]. by rewrite list_elem_of_In.
  - intros [rid rrepr] -> Hid. simpl in Hid. subst rid.
    reflexivity.
  - intros e -> Hne Hre.
    unfold try_next_chunk, try_except, next_chunk, bind, emit, raise. simpl.
    destruct e; simpl in *; try done. by destruct (Hne status content).
Qed.

Lemma upload_fails_fast_witness :
  upload (env_with [fault403] None) (PyStr video_file) (PyStr "title")
    (PyStr "") (PySet []) (PyInt 22) (PyStr "unlisted") state0
  = (Raises (UploadException
               ("An HTTP error " +:+ pretty 403%Z +:+ " occurred: "
                +:+ "forbidden")),
     add_log state0 (upload_prelude video_file ++ [EvNextChunk])).
Proof.
  apply (proj1 (upload_fails_fast (env_with [fault403] None) video_file
                  "title" "" [] 22 (PyStr "unlisted") fault403 [] state0
                  ltac:(repeat split; try reflexivity;
                        exists (mkCreds false); split; reflexivity)
                  eq_refl) 403%Z "forbidden" eq_refl).
  vm_compute. intuition discriminate.
Defined.

Lemma upload_loop_in_progress_clean env k :
  forall rest retry s,
    upload_loop env (repeat (ChunkReturns None) k ++ rest) None retry s
    = upload_loop env rest None retry (add_log s (repeat EvNextChunk k)).
Proof.
  induction k as [|k IH]; intros rest retry s.
  - simpl repeat. by rewrite add_log_nil.
  - change (repeat (ChunkReturns None) (S k) ++ rest)%list
      with (ChunkReturns None :: (repeat (ChunkReturns None) k ++ rest))%list.
    rewrite upload_loop_step.
    change (try_next_chunk (ChunkReturns None) None s)
      with (@Returns (string + option string) (inr None),
            add_log s [EvNextChunk]).
    cbv iota. rewrite IH, add_log_app. reflexivity.
Qed.

Lemma upload_loop_in_progress_sticky env k :
  forall rest msg retry s,
    (retry + Z.of_nat k <= _MAX_RETRIES)%Z ->
    exists s',
      upload_loop env (repeat (ChunkReturns None) k ++ rest) (Some msg)
        retry s
      = upload_loop env rest (Some msg) (retry + Z.of_nat k) s'
      /\ length (sleeps (log s')) = (length (sleeps (log s)) + k)%nat.
Proof.
  induction k as [|k IH]; intros rest msg retry s Hk.
  - exists s. simpl. rewrite Z.add_0_r, Nat.add_0_r. done.
  - change (repeat (ChunkReturns None) (S k) ++ rest)%list
      with (ChunkReturns None :: (repeat (ChunkReturns None) k ++ rest))%list.
    rewrite upload_loop_step.
    change (try_next_chunk (ChunkReturns None) (Some msg) s)
      with (@Returns (string + option string) (inr (Some msg)),
            add_log s [EvNextChunk]).
    cbv iota. rewrite backoff_sleeps by lia.
    match goal with |- context [upload_loop env _ _ _ ?s1] =>
      destruct (IH rest msg (retry + 1)%Z s1) as (s' & H1 & H2); [lia|]
    end.
    exists s'. rewrite H1. split; [f_equal; lia|].
    rewrite H2. simpl. rewrite !sleeps_app. simpl.
    rewrite !length_app. simpl. lia.
Qed.

(** X5. Chunks that are in progress ([next_chunk] returns no response).
    - Before any fault they cost nothing: the loop asks for the next
      chunk, without a sleep and with the counter at 0.
    - After one retriable fault, each of them is handled like another
      fault, because [error] keeps its value: the counter is incremented
      and the loop sleeps, so that ten chunks in progress after a single
      fault end the upload with the exception of the exhausted retries. *)
Theorem upload_in_progress_chunks :
  (forall env k rest s,
     _resumable_upload env (repeat (ChunkReturns None) k ++ rest) s
     = upload_loop env rest None 0 (add_log s (repeat EvNextChunk k)))
  /\ (forall env c k rest s,
        retriable_fault c = true -> (10 <= k)%nat ->
        exists s',
          _resumable_upload env
            (c :: repeat (ChunkReturns None) k ++ rest) s
          = (Raises retries_exhausted, s')
          /\ length (sleeps (log s')) = (length (sleeps (log s)) + 10)%nat).
Proof.
  split.
  - intros env k rest s. apply upload_loop_in_progress_clean.
  - intros env c k rest s Hc Hk. unfold _resumable_upload.
    rewrite upload_loop_fault_retry by (done || (unfold _MAX_RETRIES; lia)).
    replace k with (9 + (k - 9))%nat by lia.
    rewrite repeat_app, <- app_assoc.
    match goal with |- context [upload_loop env _ _ _ ?s1] =>
      destruct (upload_loop_in_progress_sticky env 9
                  (repeat (ChunkReturns None) (k - 9) ++ rest)%list
                  (fault_message c) (0 + 1)%Z s1) as (s' & H1 & H2);
        [unfold _MAX_RETRIES; lia|]
    end.
    rewrite H1.
    destruct (k - 9)%nat as [|k'] eqn:E; [lia|].
    change (repeat (ChunkReturns None) (S k') ++ rest)%list
      with (ChunkReturns None
            :: (repeat (ChunkReturns None) k' ++ rest))%list.
    rewrite upload_loop_step.
    change (try_next_chunk (ChunkReturns None) (Some (fault_message c)) s')
      with (@Returns (string + option string)
              (inr (Some (fault_message c))), add_log s' [EvNextChunk]).
    cbv iota. rewrite backoff_exhausted by (unfold _MAX_RETRIES; lia).
    eexists; split; [reflexivity|].
    simpl. rewrite !sleeps_app. simpl. rewrite !app_nil_r, H2.
    rewrite sleeps_after_backoff, length_app. simpl. lia.
Qed.

Lemma upload_in_progress_chunks_witness :
  exists s',
    _resumable_upload env_retry
      (fault503 :: repeat (ChunkReturns None) 10 ++ [success_abc123]) state0
    = (Raises retries_exhausted, s')
    /\ length (sleeps (log s')) = (length (sleeps (log state0)) + 10)%nat.
Proof.
  apply (proj2 upload_in_progress_chunks env_retry fault503 10%nat
           [success_abc123] state0); [reflexivity | lia].
Defined.

(** The chunks before the response that the loop returns. *)
Lemma upload_loop_returns env request :
  forall error retry s id s',
    upload_loop env request error retry s = (Returns id, s') ->
    exists pre response post,
      request = (pre ++ ChunkReturns (Some response) :: post)%list
      /\ resp_id response = Some id
      /\ forallb goes_on pre = true.
Proof.
  induction request as [|c rest IH]; intros error retry s id s' Hrun.
  - discriminate.
  - rewrite upload_loop_step in Hrun.
    assert (forall error' retry' s1,
              upload_loop env rest error' retry' s1 = (Returns id, s') ->
              goes_on c = true ->
              exists pre response post,
                (c :: rest) = (pre ++ ChunkReturns (Some response) :: post)%list
                /\ resp_id response = Some id
                /\ forallb goes_on pre = true) as Hnext.
    { intros e' r' s1 H Hc. apply IH in H as (pre & r & post & -> & H1 & H2).
      exists (c :: pre), r, post. simpl. by rewrite Hc, H2. }
    destruct c as [[r|]|e].
    + unfold try_next_chunk, try_except, next_chunk, bind, emit, raise, ret
        in Hrun. simpl in Hrun.
      destruct (resp_id r) as [id'|] eqn:E; simpl in Hrun; [|discriminate].
      injection Hrun as <- <-. by exists [], r, rest.
    + change (try_next_chunk (ChunkReturns None) error s)
        with (@Returns (string + option string) (inr error),
              add_log s [EvNextChunk]) in Hrun.
      cbv iota in Hrun. destruct error as [msg|].
      * destruct (backoff env msg retry _) as [[r'| |] s2];
          [|discriminate..]. by eapply Hnext.
      * by eapply Hnext.
    + destruct (retriable_fault (ChunkRaises e)) eqn:Ef.
      * rewrite try_next_chunk_fault in Hrun by done.
        destruct (backoff env _ retry _) as [[r'| |] s2];
          [|discriminate..]. eapply Hnext; [exact Hrun|exact Ef].
      * unfold try_next_chunk, try_except, next_chunk, bind, emit, raise, ret
          in Hrun. simpl in Hrun.
        destruct e; simpl in *; try discriminate.
        rewrite Ef in Hrun. discriminate.
Qed.

(** X6. The identifier that [_resumable_upload] returns is the value
    under ["id"] of the first response of the request; every outcome of
    [next_chunk] before it is a chunk in progress or a retriable fault. *)
Theorem resumable_upload_returns_first_id env request s id s' :
  _resumable_upload env request s = (Returns id, s') ->
  exists pre response post,
    request = (pre ++ ChunkReturns (Some response) :: post)%list
    /\ resp_id response = Some id
    /\ forallb goes_on pre = true.
Proof. apply upload_loop_returns. Qed.

Lemma resumable_upload_returns_first_id_witness :
  exists pre response post,
    [fault503; fault503; fault503; success_abc123]
    = (pre ++ ChunkReturns (Some response) :: post)%list
    /\ resp_id response = Some "abc123"
    /\ forallb goes_on pre = true.
Proof.
  eapply (resumable_upload_returns_first_id env_retry
            [fault503; fault503; fault503; success_abc123] state0 "abc123").
  vm_compute. reflexivity.
Defined.


(** X8. When the arguments pass the checks and a valid credential is
    stored, an exception of [build] leaves [upload] as it is, not wrapped
    in an [UploadException], and no chunk is asked for. *)
Theorem upload_build_failure env p t d ts cat privacy_status c e s :
  isfile env p = true -> (0 < cat)%Z ->
  in_valid_privacy_statuses privacy_status = true ->
  path_exists env _OAUTH_FILE = true ->
  storage_get env _OAUTH_FILE = Some c -> invalid c = false ->
  build_raises env = Some e ->
  upload env (PyStr p) (PyStr t) (PyStr d) (PySet ts) (PyInt cat)
    privacy_status s
  = (Raises e, add_log s (upload_prelude p)).
Proof.
  intros Hf Hc Hp He Hs Hi Hb.
  rewrite upload_checked by done. unfold bind at 1.
  rewrite (get_creds_some env c) by done.
  unfold bind at 1, build, bind at 1, emit, ret. rewrite Hb. simpl.
  unfold raise, add_log, upload_prelude. simpl. by rewrite <- !app_assoc.
Qed.

Lemma upload_build_failure_witness :
  upload (env_with [success_abc123] (Some (HttpLib2Error "no route")))
    (PyStr video_file) (PyStr "title") (PyStr "") (PySet []) (PyInt 22)
    (PyStr "unlisted") state0
  = (Raises (HttpLib2Error "no route"),
     add_log state0 (upload_prelude video_file)).
Proof.
  apply (upload_build_failure
           (env_with [success_abc123] (Some (HttpLib2Error "no route")))
           video_file "title" "" [] 22 (PyStr "unlisted") (mkCreds false)
           (HttpLib2Error "no route") state0);
    first [reflexivity | lia].
Defined.

(** ** reddit.py: further properties of the listings *)

(** X9. The limit that the listings pass on: no limit for [None] and for
    0, the limit itself when it is at least 1, and 1 for a negative one.
    So [get_hot_articles] with a limit of 0 is [get_hot_articles] without
    limit. *)
Theorem norm_limit_spec :
  (forall limit,
     norm_limit limit = None <-> limit = None \/ limit = Some 0%Z)
  /\ (forall limit n, norm_limit limit = Some n -> (1 <= n)%Z)
  /\ (forall l, (1 <= l)%Z -> norm_limit (Some l) = Some l)
  /\ (forall l, (l < 0)%Z -> norm_limit (Some l) = Some 1%Z)
  /\ (forall env subreddit min_score min_age,
        get_hot_articles env subreddit (Some 0%Z) min_score min_age
        = get_hot_articles env subreddit None min_score min_age).
Proof.
  repeat split.
  - destruct limit as [[|l|l]|]; simpl; intros H; try discriminate; auto.
  - intros [H|H]; subst; reflexivity.
  - intros limit n. destruct limit as [[|l|l]|]; simpl; intros [= <-]; lia.
  - intros l Hl. destruct l as [|l|l]; simpl; try lia. f_equal. lia.
  - intros l Hl. destruct l as [|l|l]; simpl; try lia. f_equal.
Qed.

Lemma norm_limit_spec_witness :
  norm_limit (Some 7%Z) = Some 7%Z /\ norm_limit (Some (-3)%Z) = Some 1%Z.
Proof.
  split.
  - apply (proj1 (proj2 (proj2 norm_limit_spec)) 7%Z). lia.
  - apply (proj1 (proj2 (proj2 (proj2 norm_limit_spec))) (-3)%Z). lia.
Defined.

Lemma fetch_raises_at_call mode subreddit e s :
  fetch mode subreddit (ListingRaises e) s
  = (Raises (match e with
             | PRAWException msg => RedditApiException msg
             | _ => e
             end),
     add_log s [EvListing subreddit mode]).
Proof.
  unfold fetch, bind, try_except, emit, raise. simpl. by destruct e.
Qed.

Lemma fetch_raises_in_iteration mode subreddit arts e s :
  fetch mode subreddit (ListingYields arts (Some e)) s
  = (Raises e, add_log s [EvListing subreddit mode]).
Proof. reflexivity. Qed.

(** X10. Failures of the listing. An exception that the call of
    [hot] or [top] raises leaves [get_hot_articles] and
    [get_top_articles] as a [RedditApiException] with the same message
    when it is a [PRAWException], and unchanged otherwise. An exception
    raised while the listing is iterated, after the [try] statement, is
    never wrapped, not even a [PRAWException]. In all cases the call ends
    after the request of the listing, before any filtering. *)
Theorem listing_failures env subreddit time_filter limit min_score min_age
    s :
  In time_filter VALID_TIME_FILTERS ->
  let hot := get_hot_articles env subreddit limit min_score min_age s in
  let top :=
    get_top_articles env subreddit time_filter limit min_score min_age s in
  let wrap e :=
    match e with PRAWException msg => RedditApiException msg | _ => e end in
  (forall e,
     sub_hot env subreddit (norm_limit limit) = ListingRaises e ->
     hot = (Raises (wrap e), add_log s [EvListing subreddit "hot"]))
  /\ (forall e,
        sub_top env subreddit time_filter (norm_limit limit)
        = ListingRaises e ->
        top = (Raises (wrap e), add_log s [EvListing subreddit "top"]))
  /\ (forall arts e,
        sub_hot env subreddit (norm_limit limit)
        = ListingYields arts (Some e) ->
        hot = (Raises e, add_log s [EvListing subreddit "hot"]))
  /\ (forall arts e,
        sub_top env subreddit time_filter (norm_limit limit)
        = ListingYields arts (Some e) ->
        top = (Raises e, add_log s [EvListing subreddit "top"])).
Proof.
  intros Hv. cbv zeta.
  rewrite get_hot_articles_eq, get_top_articles_eq by done.
  unfold listing_of. repeat split.
  - intros e ->. unfold bind at 1. by rewrite fetch_raises_at_call.
  - intros e ->. unfold bind at 1. by rewrite fetch_raises_at_call.
  - intros arts e ->. unfold bind at 1.
    by rewrite fetch_raises_in_iteration.
  - intros arts e ->. unfold bind at 1.
    by rewrite fetch_raises_in_iteration.
Qed.

Lemma listing_failures_witness :
  get_hot_articles (env_listing_raises (PRAWException "received 404"))
    "videos" (Some 10%Z) None None state0
  = (Raises (RedditApiException "received 404"),
     add_log state0 [EvListing "videos" "hot"]).
Proof.
  apply (proj1 (listing_failures
                  (env_listing_raises (PRAWException "received 404"))
                  "videos" "all" (Some 10%Z) None None state0
                  ltac:(vm_compute; tauto))
           (PRAWException "received 404")).
  reflexivity.
Defined.

(** The filtering pass without a minimum age. *)
Lemma filter_loop_score_only env min_score articles :
  forall filtered s,
    filter_loop env articles filtered min_score None s
    = (Returns (filtered ++ List.filter (score_ok min_score) articles)%list,
       s).
Proof.
  induction articles as [|art rest IH]; intros filtered s.
  - simpl. by rewrite app_nil_r.
  - simpl. destruct min_score as [ms|]; simpl.
    + destruct (art_score art <? ms)%Z; simpl.
      * apply IH.
      * rewrite IH, <- app_assoc. reflexivity.
    + rewrite IH, <- app_assoc. reflexivity.
Qed.

(** X11. Without a minimum age, a listing whose request succeeds returns
    the submissions with a score of at least [min_score], all of them
    when there is no minimum score, in the stable descending order of
    their scores; the clock is not read. *)
Theorem listing_without_min_age env subreddit time_filter limit min_score
    raw s :
  In time_filter VALID_TIME_FILTERS ->
  let result :=
    sort_desc art_score
      (List.filter (score_ok min_score) (map RedditArticle_init raw)) in
  (sub_hot env subreddit (norm_limit limit) = ListingYields raw None ->
   get_hot_articles env subreddit limit min_score None s
   = (Returns result, add_log s [EvListing subreddit "hot"]))
  /\ (sub_top env subreddit time_filter (norm_limit limit)
      = ListingYields raw None ->
      get_top_articles env subreddit time_filter limit min_score None s
      = (Returns result, add_log s [EvListing subreddit "top"])).
Proof.
  intros Hv. cbv zeta.
  rewrite get_hot_articles_eq, get_top_articles_eq by done.
  unfold listing_of, _filter_articles. split; intros ->.
  - unfold bind at 1, fetch, bind at 1, try_except, emit, ret. simpl.
    unfold bind. rewrite filter_loop_score_only. reflexivity.
  - unfold bind at 1, fetch, bind at 1, try_except, emit, ret. simpl.
    unfold bind. rewrite filter_loop_score_only. reflexivity.
Qed.

Lemma listing_without_min_age_witness :
  get_hot_articles env_reddit "videos" (Some 10%Z) (Some 5%Z) None state0
  = (Returns
       (sort_desc art_score
          (List.filter (score_ok (Some 5%Z))
             (map RedditArticle_init
                [sub_video; sub_low; sub_youtube; sub_text]))),
     add_log state0 [EvListing "videos" "hot"]).
Proof.
  apply (proj1 (listing_without_min_age env_reddit "videos" "all"
                  (Some 10%Z) (Some 5%Z)
                  [sub_video; sub_low; sub_youtube; sub_text] state0
                  ltac:(vm_compute; tauto))).
  reflexivity.
Defined.

(** X12. The age of an article is read from the clock at each access:
    two accesses take two readings, and with a clock that does not go
    back the second age is at least the first. *)
Theorem age_nondecreasing env self s :
  (forall i j, (i <= j)%nat -> (clock env i <= clock env j)%Q) ->
  exists a1 a2 s1 s2,
    age env self s = (Returns a1, s1)
    /\ age env self s1 = (Returns a2, s2)
    /\ ticks s2 = (ticks s + 2)%nat
    /\ (a1 <= a2)%Q.
Proof.
  intros Hmono. unfold age, bind, datetime_now, ret. simpl.
  do 4 eexists. split; [reflexivity|]. split; [reflexivity|].
  simpl. split; [lia|]. apply hours_between_mono, Hmono. lia.
Qed.

Lemma age_nondecreasing_witness :
  exists a1 a2 s1 s2,
    age env_reddit (RedditArticle_init sub_video) state0 = (Returns a1, s1)
    /\ age env_reddit (RedditArticle_init sub_video) s1 = (Returns a2, s2)
    /\ ticks s2 = (ticks state0 + 2)%nat
    /\ (a1 <= a2)%Q.
Proof.
  apply (age_nondecreasing env_reddit (RedditArticle_init sub_video) state0).
  intros i j Hij. simpl. rewrite <- Zle_Qle. lia.
Defined.

(** ** reddit.py: further properties of the comments *)

(** A list in descending order of the keys is determined by the elements
    of each key and their order. *)
Lemma sorted_stable_unique {A : Type} (key : A -> Z) (l1 : list A) :
  forall l2,
    StronglySorted (desc key) l1 -> StronglySorted (desc key) l2 ->
    (forall k, with_key key k l1 = with_key key k l2) ->
    l1 = l2.
Proof.
  assert (forall (x : A) l l', 
            StronglySorted (desc key) (x :: l) ->
            with_key key (key x) l' <> [] ->
            StronglySorted (desc key) l' ->
            exists y r, l' = y :: r /\ (key x <= key y)%Z) as Hhead.
  { intros x l l' _ Hne Hs'. destruct l' as [|y r]; [done|].
    exists y, r. split; [done|].
    unfold with_key in Hne. simpl in Hne.
    destruct (key y =? key x)%Z eqn:E; [apply Z.eqb_eq in E; lia|].
    destruct (List.filter _ r) as [|z zs] eqn:Ef; [done|].
    assert (In z (List.filter (fun a => (key a =? key x)%Z) r)) as Hz
      by (rewrite Ef; by left).
    apply filter_In in Hz as [Hz1 Hz2]. apply Z.eqb_eq in Hz2.
    apply StronglySorted_inv in Hs' as [_ Hall].
    rewrite List.Forall_forall in Hall. specialize (Hall z Hz1).
    unfold desc in Hall. lia. }
  induction l1 as [|x l1 IH]; intros l2 H1 H2 Hk.
  - destruct l2 as [|y l2]; [done|].
    specialize (Hk (key y)). unfold with_key in Hk. simpl in Hk.
    by rewrite Z.eqb_refl in Hk.
  - destruct (Hhead x l1 l2 H1) as (y & r & -> & Hxy); [|done|].
    { rewrite <- Hk. unfold with_key. simpl. by rewrite Z.eqb_refl. }
    destruct (Hhead y r (x :: l1) H2) as (x' & r' & [= <- <-] & Hyx);
      [|done|].
    { rewrite Hk. unfold with_key. simpl. by rewrite Z.eqb_refl. }
    assert (key x = key y) as Hkey by lia.
    pose proof (Hk (key x)) as Hkx. unfold with_key in Hkx. simpl in Hkx.
    rewrite <- Hkey, Z.eqb_refl in Hkx. injection Hkx as <- Hkx.
    f_equal. apply IH.
    + by apply StronglySorted_inv in H1 as [? _].
    + by apply StronglySorted_inv in H2 as [? _].
    + intros k. destruct (decide (k = key x)) as [->|Hne]; [done|].
      specialize (Hk k). unfold with_key in *. simpl in Hk.
      assert ((key x =? k)%Z = false) as E by (apply Z.eqb_neq; lia).
      by rewrite E in Hk.
Qed.

Lemma with_key_app {A : Type} (key : A -> Z) k (l1 l2 : list A) :
  with_key key k (l1 ++ l2) = (with_key key k l1 ++ with_key key k l2)%list.
Proof. apply List.filter_app. Qed.

Lemma sort_desc_resort {A : Type} (key : A -> Z) (l : list A) x :
  sort_desc key (sort_desc key l ++ [x]) = sort_desc key (l ++ [x]).
Proof.
  apply (sorted_stable_unique key); try apply sort_desc_sorted.
  intros k. rewrite !sort_desc_stable, !with_key_app.
  by rewrite sort_desc_stable.
Qed.

Lemma collect_sorted nodes :
  forall l0,
    fold_left collect_step nodes (sort_desc praw_score l0)
    = sort_desc praw_score (l0 ++ comments_of nodes).
Proof.
  induction nodes as [|n nodes IH]; intros l0.
  - simpl. by rewrite app_nil_r.
  - destruct n as [c|]; simpl; [|apply IH].
    rewrite sort_desc_resort, IH, <- app_assoc. reflexivity.
Qed.

Lemma collect_sorted_aux nodes :
  fold_left collect_step nodes []
  = sort_desc praw_score (comments_of nodes).
Proof. apply (collect_sorted nodes []). Qed.

(** X13. The first loop of [get_comments] sorts the list again after each
    [append]; its result is the list of the comments of the forest, the
    other nodes left out, in the stable descending order of the scores,
    as one sort at the end would give it. *)
Theorem collect_sorted_once nodes :
  fold_left collect_step nodes []
  = sort_desc praw_score (comments_of nodes).
Proof. apply collect_sorted_aux. Qed.

(** The expansion keeps the author, the text and the score of every
    object, and the child of every object but the expanded one. *)
Lemma expand_frame n :
  forall max_depth comment praw_comment percent_thres (h : heap),
    Z.to_nat max_depth = n ->
    let h' := _expand_comment comment praw_comment max_depth percent_thres h in
    (forall l o, h !! l = Some o ->
       exists o', h' !! l = Some o' /\ data_of o' = data_of o
                  /\ (l <> comment -> o' = o)).
Proof.
  induction n as [|n IH];
    intros max_depth comment praw_comment percent_thres h Hn;
    cbv zeta; rewrite expand_unfold.
  - destruct (Z_le_gt_dec max_depth 0) as [Hle|Hgt]; [|lia]. eauto.
  - destruct (Z_le_gt_dec max_depth 0) as [Hle|Hgt]; [lia|].
    destruct (best_reply_of (praw_replies praw_comment)) as [b|]; [|eauto].
    destruct (gt_scaled _ _ _); [|eauto].
    destruct (from_praw_spec b h) as [Hfresh ->].
    set (child := fresh (dom h)) in *.
    set (ob := mkComment (praw_author b) (praw_body b) (praw_score b) None).
    intros l o Hl.
    assert (l <> child) as Hlc by (intros ->; congruence).
    set (h2 := child_set comment (Some child) (<[child := ob]> h)).
    assert (exists o2, h2 !! l = Some o2 /\ data_of o2 = data_of o
                       /\ (l <> comment -> o2 = o)) as (o2 & H2 & Hd2 & Hs2).
    { unfold h2, child_set.
      destruct (<[child := ob]> h !! comment) as [oc|] eqn:Ec.
      - destruct (decide (l = comment)) as [->|Hne].
        + rewrite lookup_insert_eq. rewrite lookup_insert_ne in Ec by done.
          rewrite Hl in Ec. injection Ec as <-. eexists. done.
        + rewrite !lookup_insert_ne by done. eauto.
      - rewrite lookup_insert_ne by done. eauto. }
    destruct (IH (max_depth - 1)%Z child b percent_thres h2 ltac:(lia)
                l o2 H2) as (o' & H' & Hd' & Hs').
    exists o'. split; [done|]. split; [congruence|].
    intros Hne. rewrite Hs' by done. by apply Hs2.
Qed.

Lemma top_of_mono (h h' : heap) c p :
  (forall l o, h !! l = Some o ->
     exists o', h' !! l = Some o' /\ data_of o' = data_of o) ->
  top_of h c p -> top_of h' c p.
Proof.
  intros Hsub (o & Ho & Hd). destruct (Hsub c o Ho) as (o' & Ho' & Hd').
  exists o'. split; [done | congruence].
Qed.

(** The second loop of [get_comments] returns the copies of the comments
    that pass its test, after the ones it is given. *)
Lemma expand_loop_tops depth thres praw_comments :
  forall comments tops (h : heap),
    Forall2 (top_of h) comments tops ->
    Forall2 (top_of (snd (expand_loop depth thres praw_comments comments h)))
      (fst (expand_loop depth thres praw_comments comments h))
      (tops ++ List.filter keep_comment praw_comments).
Proof.
  induction praw_comments as [|p rest IH]; intros comments tops h Hall.
  - simpl. by rewrite app_nil_r.
  - rewrite expand_loop_cons.
    destruct (from_praw_spec p h) as [Hfresh ->].
    set (comment := fresh (dom h)) in *.
    set (o := mkComment (praw_author p) (praw_body p) (praw_score p) None).
    set (h1 := <[comment := o]> h).
    assert (forall l x, h !! l = Some x ->
              exists o', h1 !! l = Some o' /\ data_of o' = data_of x)
      as Hsub1.
    { intros l x Hl. exists x. split; [|done].
      unfold h1. rewrite lookup_insert_ne; [done|]. intros <-. congruence. }
    assert (Forall2 (top_of h1) comments tops) as Hall1.
    { eapply Forall2_impl; [exact Hall|]. intros c q. by apply top_of_mono. }
    change (List.filter keep_comment (p :: rest))
      with (if keep_comment p then p :: List.filter keep_comment rest
            else List.filter keep_comment rest).
    assert (keep_comment p
            = match praw_author p with
              | None => false
              | Some _ => negb (String.eqb (praw_body p) "[deleted]")
              end) as Hk by reflexivity.
    destruct (praw_author p) as [a|] eqn:Ea; rewrite Hk; [|by apply IH].
    destruct (String.eqb (praw_body p) "[deleted]") eqn:Eb; simpl negb;
      cbv iota; [by apply IH|].
    set (h2 := _expand_comment comment p depth thres h1).
    pose proof (expand_frame (Z.to_nat depth) depth comment p thres h1
                  eq_refl) as Hframe. cbv zeta in Hframe. fold h2 in Hframe.
    replace (tops ++ p :: List.filter keep_comment rest)%list
      with ((tops ++ [p]) ++ List.filter keep_comment rest)%list
      by (by rewrite <- app_assoc).
    apply IH. apply Forall2_app.
    + eapply Forall2_impl; [exact Hall1|]. intros c q. apply top_of_mono.
      intros l x Hl. destruct (Hframe l x Hl) as (o' & H1 & H2 & _). eauto.
    + constructor; [|constructor].
      destruct (Hframe comment o) as (o' & H1 & H2 & _).
      { unfold h1. apply lookup_insert_eq. }
      exists o'. split; [done|]. rewrite H2. unfold o, data_of, praw_data.
      simpl. by rewrite Ea.
Qed.

Lemma get_comments_tops article_comments max_comments max_depth
    percent_thres (h : heap) :
  let r := get_comments article_comments max_comments max_depth
             percent_thres h in
  Forall2 (top_of (snd r)) (fst r)
    (top_comments article_comments max_comments).
Proof.
  cbv zeta. unfold get_comments, top_comments.
  rewrite collect_sorted_aux.
  apply (expand_loop_tops _ _ _ [] []). constructor.
Qed.

(** X14. [get_comments] returns, in this order, copies of the comments
    that have an author and a text other than ["[deleted]"] among the
    first [max(1, max_comments)] comments of the article by descending
    score. The comments without author and the deleted ones are left out
    after the list is cut, so they are not replaced by lower ones. *)
Theorem get_comments_returns_top_comments article_comments max_comments
    max_depth percent_thres (h : gmap loc RedditComment) :
  let r := get_comments article_comments max_comments max_depth
             percent_thres h in
  Forall2 (top_of (snd r)) (fst r)
    (top_comments article_comments max_comments).
Proof. apply get_comments_tops. Qed.

Lemma in_firstn {A : Type} (y : A) n (l : list A) :
  In y (firstn n l) -> In y l.
Proof.
  revert n. induction l as [|x l IH]; intros [|n]; simpl; try done.
  intros [H|H]; [by left | right; by eapply IH].
Qed.

Lemma sorted_firstn {A : Type} (R : A -> A -> Prop) n (l : list A) :
  StronglySorted R l -> StronglySorted R (firstn n l).
Proof.
  intros H. revert n. induction H as [|x l Hs IH Hx]; intros n.
  - destruct n; constructor.
  - destruct n; simpl; constructor; [apply IH|].
    rewrite List.Forall_forall in *. intros y Hy. apply Hx.
    eapply in_firstn; exact Hy.
Qed.

Lemma sorted_filter {A : Type} (R : A -> A -> Prop) f (l : list A) :
  StronglySorted R l -> StronglySorted R (List.filter f l).
Proof.
  induction 1 as [|x l Hs IH Hx]; simpl; [constructor|].
  destruct (f x); [|done]. constructor; [done|].
  rewrite List.Forall_forall in *. intros y Hy.
  apply filter_In in Hy as [Hy _]. by apply Hx.
Qed.

Lemma filter_length_le {A : Type} f (l : list A) :
  (length (List.filter f l) <= length l)%nat.
Proof.
  induction l as [|x l IH]; simpl; [done|]. destruct (f x); simpl; lia.
Qed.

(** X15. [get_comments] returns at most [max(1, max_comments)] comments,
    so at most one when [max_comments] is 0 or negative, and their scores
    do not increase along the list. *)
Theorem get_comments_bounds article_comments max_comments max_depth
    percent_thres (h : gmap loc RedditComment) :
  let r := get_comments article_comments max_comments max_depth
             percent_thres h in
  (Z.of_nat (length (fst r)) <= Z.max 1 max_comments)%Z
  /\ StronglySorted
       (fun c1 c2 => (score_get c2 (snd r) <= score_get c1 (snd r))%Z)
       (fst r).
Proof.
  cbv zeta.
  pose proof (get_comments_tops article_comments max_comments max_depth
                percent_thres h) as H. cbv zeta in H.
  set (r := get_comments _ _ _ _ _) in *.
  assert (StronglySorted (desc praw_score)
            (top_comments article_comments max_comments)) as Hs.
  { unfold top_comments. apply sorted_filter, sorted_firstn, sort_desc_sorted. }
  assert (length (top_comments article_comments max_comments)
          <= Z.to_nat (Z.max 1 max_comments))%nat as Hl.
  { unfold top_comments. etrans; [apply filter_length_le|].
    rewrite length_firstn. lia. }
  split.
  - rewrite (Forall2_length _ _ _ H). lia.
  - clear Hl. revert Hs.
    induction H as [|c p cs ps Hcp Hrest IH]; intros Hs; [constructor|].
    apply StronglySorted_inv in Hs as [Hs Hp].
    constructor; [by apply IH|].
    clear IH Hs. induction Hrest as [|c' p' cs ps Hc' _ IH]; [constructor|].
    apply Forall_cons in Hp as [Hp1 Hp2].
    constructor; [|by apply IH].
    destruct Hcp as (o & Ho & Hd), Hc' as (o' & Ho' & Hd').
    unfold score_get. rewrite Ho, Ho'.
    unfold data_of, praw_data in Hd, Hd'. unfold desc in Hp1. congruence.
Qed.



(** X17. Setting and reading [child]. After the child of a comment is set
    to an object, a reading returns a new object with the attributes of
    that object; after it is set to [None], a reading returns [None] and
    creates no object. The setter changes the child of the comment and
    nothing else. *)
Theorem child_set_then_get (h : gmap loc RedditComment) self o :
  h !! self = Some o ->
  (child_get self (child_set self None h) = (None, child_set self None h))
  /\ (forall c,
        is_Some (h !! c) ->
        let h' := child_set self (Some c) h in
        exists r oc,
          h' !! c = Some oc /\ h' !! r = None
          /\ child_get self h' = (Some r, <[r := oc]> h'))
  /\ (forall new_child,
        let h' := child_set self new_child h in
        h' !! self
        = Some (mkComment (_author o) (_text o) (_score o) new_child)
        /\ forall l, l <> self -> h' !! l = h !! l).
Proof.
  intros Ho. split; [|split].
  - unfold child_set. rewrite Ho. unfold child_get.
    rewrite lookup_insert_eq. reflexivity.
  - intros c [oc0 Hc]. cbv zeta. unfold child_set. rewrite Ho.
    set (h' := <[self := _]> h).
    assert (exists oc, h' !! c = Some oc) as [oc Hoc].
    { unfold h'. destruct (decide (self = c)) as [->|Hne].
      - rewrite lookup_insert_eq. eauto.
      - rewrite lookup_insert_ne by done. eauto. }
    exists (fresh (dom h')), oc. split; [done|].
    split; [apply fresh_lookup|].
    unfold child_get, copy. unfold h' at 1. rewrite lookup_insert_eq.
    simpl. rewrite Hoc. reflexivity.
  - intros new_child. cbv zeta. unfold child_set. rewrite Ho.
    split; [apply lookup_insert_eq|].
    intros l Hl. by rewrite lookup_insert_ne.
Qed.

Lemma child_set_then_get_witness :
  child_get 0%nat (child_set 0%nat None heap_chain)
  = (None, child_set 0%nat None heap_chain).
Proof.
  apply (proj1 (child_set_then_get heap_chain 0%nat
                  (mkComment (Some "ann") "top" 10 (Some 1%nat)) eq_refl)).
Defined.

(** ** reddit.py: further properties of the video *)

(** X18. A reference that [get_video] returns is the one of a native
    video that is no gif: it has the title and the author of the article,
    the fallback URL and the duration of the video. The call has sent one
    request, a [HEAD] for the derived audio URL; the reference has this
    URL when the status was 200, and no audio URL otherwise. *)
Theorem get_video_reference env self s ref s' :
  get_video env self s = (Returns ref, s') ->
  exists media video audio_url status_code,
    art_media self = Some media
    /\ media_reddit_video media = Some video
    /\ is_gif video = false
    /\ audio_url_of (fallback_url video) = inr audio_url
    /\ head_status env audio_url = inr status_code
    /\ s' = add_log s [EvHead audio_url]
    /\ ref = mkVideoRef (art_title self) (art_author self)
               (fallback_url video)
               (if (status_code =? 200)%Z then Some audio_url else None)
               (inject_Z (duration video)).
Proof.
  unfold get_video, has_video.
  destruct (art_media self) as [media|]; [|discriminate].
  destruct (media_reddit_video media) as [video|] eqn:Ev.
  - destruct (is_gif video) eqn:Eg; simpl; [discriminate|].
    destruct (audio_url_of (fallback_url video)) as [e|u] eqn:Ea;
      [discriminate|].
    unfold bind, requests_head, bind, emit, ret, raise. simpl.
    destruct (head_status env u) as [e|st] eqn:Eh; [discriminate|].
    intros [= <- <-]. exists media, video, u, st.
    repeat split; try done. by destruct (st =? 200)%Z.
  - destruct (media_type media) as [ty|]; [|discriminate].
    destruct (String.eqb ty "youtube.com"); discriminate.
Qed.

Lemma get_video_reference_witness :
  exists media video audio_url status_code,
    art_media (RedditArticle_init sub_video) = Some media
    /\ media_reddit_video media = Some video
    /\ is_gif video = false
    /\ audio_url_of (fallback_url video) = inr audio_url
    /\ head_status env_reddit audio_url = inr status_code
    /\ add_log state0 [EvHead "https://v.redd.it/abc123/DASH_audio.mp4"]
       = add_log state0 [EvHead audio_url]
    /\ mkVideoRef "A video" (Some "alice")
         "https://v.redd.it/abc123/DASH_240.mp4?source=x" None (inject_Z 10)
       = mkVideoRef (art_title (RedditArticle_init sub_video))
           (art_author (RedditArticle_init sub_video))
           (fallback_url video)
           (if (status_code =? 200)%Z then Some audio_url else None)
           (inject_Z (duration video)).
Proof.
  apply (get_video_reference env_reddit (RedditArticle_init sub_video)
           state0). reflexivity.
Defined.

(** X19. For an article whose media has no native video and the type
    ["youtube.com"], [has_video()] is [True] and [get_video] raises
    [NotImplementedError]; no request is sent. *)
Theorem get_video_youtube env self media s :
  art_media self = Some media ->
  media_reddit_video media = None ->
  media_type media = Some "youtube.com" ->
  has_video self None None true = true
  /\ get_video env self s = (Raises NotImplementedError, s).
Proof.
  intros Hm Hv Ht. unfold get_video, has_video. rewrite Hm, Hv, Ht. done.
Qed.

Lemma get_video_youtube_witness :
  has_video (RedditArticle_init sub_youtube) None None true = true
  /\ get_video env_reddit (RedditArticle_init sub_youtube) state0
     = (Raises NotImplementedError, state0).
Proof.
  apply (get_video_youtube env_reddit (RedditArticle_init sub_youtube)
           (mkMedia None (Some "youtube.com")) state0); reflexivity.
Defined.

(** X20. Failures of [get_video] for a native video that is no gif: an
    exception of [urlsplit] or [urljoin] on the fallback URL leaves
    [get_video] before any request is sent, and an exception of the
    [HEAD] request leaves it unchanged, the status of the probe being
    looked at only when the request returns. *)
Theorem get_video_failures env self media video s :
  art_media self = Some media ->
  media_reddit_video media = Some video ->
  is_gif video = false ->
  (forall e,
     audio_url_of (fallback_url video) = inl e ->
     get_video env self s = (Raises e, s))
  /\ (forall audio_url e,
        audio_url_of (fallback_url video) = inr audio_url ->
        head_status env audio_url = inl e ->
        get_video env self s = (Raises e, add_log s [EvHead audio_url])).
Proof.
  intros Hm Hv Hg. unfold get_video, has_video. rewrite Hm, Hv, Hg. simpl.
  split.
  - intros e ->. reflexivity.
  - intros u e -> Hh.
    unfold bind, requests_head, bind, emit, ret, raise. simpl.
    by rewrite Hh.
Qed.

Lemma get_video_failures_witness :
  get_video (env_head (inr 200%Z))
    (article_with_video false "http://[::1/DASH_240.mp4" None) state0
  = (Raises (ValueError "Invalid IPv6 URL"), state0)
  /\ get_video (env_head (inl (OtherException "ConnectionError" "refused")))
       (article_with_video false
          "https://v.redd.it/abc123/DASH_240.mp4?source=x" None) state0
     = (Raises (OtherException "ConnectionError" "refused"),
        add_log state0 [EvHead "https://v.redd.it/abc123/DASH_audio.mp4"]).
Proof.
  split.
  - apply (proj1 (get_video_failures (env_head (inr 200%Z))
                    (article_with_video false "http://[::1/DASH_240.mp4" None)
                    (mkMedia (Some (mkRedditVideo false 10
                                      "http://[::1/DASH_240.mp4")) None)
                    (mkRedditVideo false 10 "http://[::1/DASH_240.mp4")
                    state0 eq_refl eq_refl eq_refl)).
    reflexivity.
  - apply (proj2 (get_video_failures
                    (env_head (inl (OtherException "ConnectionError"
                                      "refused")))
                    (article_with_video false
                       "https://v.redd.it/abc123/DASH_240.mp4?source=x" None)
                    (mkMedia
                       (Some (mkRedditVideo false 10
                                "https://v.redd.it/abc123/DASH_240.mp4?source=x"))
                       None)
                    (mkRedditVideo false 10
                       "https://v.redd.it/abc123/DASH_240.mp4?source=x")
                    state0 eq_refl eq_refl eq_refl)
             "https://v.redd.it/abc123/DASH_audio.mp4");
      reflexivity.
Defined.

(** X21. [has_video] and its bounds. A video that is accepted with some
    bounds on the duration is accepted with weaker bounds, and a YouTube
    embed that is accepted is accepted whenever YouTube is included. A
    native video that is a gif is never accepted, also when the media has
    the type ["youtube.com"], and [get_video] raises
    [RedditVideoNotFound] for it. *)
Theorem has_video_bounds self :
  (forall mn mx incl mn' mx' incl',
     has_video self mn mx incl = true ->
     weaker_min mn' mn -> weaker_max mx' mx ->
     (incl = true -> incl' = true) ->
     has_video self mn' mx' incl' = true)
  /\ (forall media video,
        art_media self = Some media ->
        media_reddit_video media = Some video ->
        is_gif video = true ->
        (forall mn mx incl, has_video self mn mx incl = false)
        /\ forall env s,
             get_video env self s = (Raises RedditVideoNotFound, s)).
Proof.
  split.
  - intros mn mx incl mn' mx' incl'. unfold has_video.
    destruct (art_media self) as [media|]; [|done].
    destruct (media_reddit_video media) as [video|].
    + destruct (is_gif video); simpl; [done|].
      intros H Hmn Hmx _.
      destruct (_ && _) eqn:E in H; [|done].
      apply andb_prop in E as [E1 E2].
      assert (match mx' with
              | Some m => (duration video <=? m)%Z
              | None => true
              end = true) as ->.
      { destruct mx' as [b|]; [|done]. destruct mx as [a|]; [|done].
        simpl in Hmx. apply Z.leb_le in E1. apply Z.leb_le. lia. }
      assert (match mn' with
              | Some m => (m <=? duration video)%Z
              | None => true
              end = true) as ->.
      { destruct mn' as [b|]; [|done]. destruct mn as [a|]; [|done].
        simpl in Hmn. apply Z.leb_le in E2. apply Z.leb_le. lia. }
      done.
    + destruct (media_type media) as [ty|]; [|done].
      destruct (String.eqb ty "youtube.com"); [|done].
      destruct incl; [|done]. intros _ _ _ Hi. by rewrite Hi.
  - intros media video Hm Hv Hg. split.
    + intros mn mx incl. unfold has_video. by rewrite Hm, Hv, Hg.
    + intros env s. unfold get_video, has_video. by rewrite Hm, Hv, Hg.
Qed.

Lemma has_video_bounds_witness :
  has_video (RedditArticle_init sub_video) (Some 5%Z) None false = true
  /\ get_video env_reddit
       (article_with_video true "https://v.redd.it/g/DASH_240.mp4"
          (Some "youtube.com")) state0
     = (Raises RedditVideoNotFound, state0).
Proof.
  split.
  - apply (proj1 (has_video_bounds (RedditArticle_init sub_video))
             (Some 8%Z) (Some 30%Z) false (Some 5%Z) None false);
      [reflexivity | simpl; lia | exact I | discriminate].
  - apply (proj2 (has_video_bounds
                    (article_with_video true
                       "https://v.redd.it/g/DASH_240.mp4"
                       (Some "youtube.com")))
             (mkMedia (Some (mkRedditVideo true 10
                               "https://v.redd.it/g/DASH_240.mp4"))
                (Some "youtube.com"))
             (mkRedditVideo true 10 "https://v.redd.it/g/DASH_240.mp4")
             eq_refl eq_refl eq_refl).
Defined.

(** ** The audio URL for any file name *)

Lemma urlparse_segment seg :
  good_segment seg = true ->
  urlparse seg "" = inr (mkUrl "" "" seg "" "" "").
Proof.
  intros Hg.
  destruct (good_segment_inv _ Hg) as (a & s' & -> & Ha & Hall & _).
  pose proof (seg_char_plain a Ha) as (_ & _ & Hc0).
  assert (forall c, str_contains c "/?#:;[]" = true ->
                    str_contains c (String a s') = false) as Hno.
  { intros c Hc. by apply seg_chars_contain. }
  unfold urlparse, urlsplit. cbv zeta.
  rewrite (str_lstrip_keep _ a s' Hc0).
  simpl str_lstrip. simpl str_rstrip. simpl (str_filter _ "").
  rewrite (str_filter_all _ (String a s')) by (by apply seg_chars_safe).
  rewrite (str_partition_none ":") by (by apply Hno).
  assert (starts_with_2slash (String a s') = false) as ->.
  { unfold starts_with_2slash. destruct s'; [done|].
    by rewrite (seg_char_not_delim a "/"). }
  simpl (str_contains _ ""). simpl xorb. cbv iota.
  rewrite (str_partition_none "#") by (by apply Hno).
  rewrite (str_partition_none "?") by (by apply Hno).
  cbv beta iota delta [u_scheme u_path].
  rewrite (Hno ";"%char) by done. by rewrite andb_false_r.
Qed.

Lemma urljoin_replaces_last dirs file new :
  forallb good_segment dirs = true ->
  good_segment file = true -> good_segment new = true ->
  urljoin (dir_path (dirs ++ [file])) new = inr (dir_path (dirs ++ [new])).
Proof.
  intros Hd Hf Hn.
  assert (forallb good_segment (dirs ++ [file]) = true) as Hl.
  { rewrite forallb_app, Hd. simpl. by rewrite Hf. }
  assert ((dirs ++ [file])%list <> []) as Hne by (by destruct dirs).
  destruct (good_segment_inv _ Hn) as (a & n' & En & Ha & Hall & Hd1 & Hd2).
  destruct (good_segment_inv _ Hf) as (b & f' & Ef & _).
  unfold urljoin.
  assert (str_empty (dir_path (dirs ++ [file])) = false) as ->.
  { by destruct dirs. }
  assert (str_empty new = false) as Hnew by (by rewrite En).
  rewrite Hnew. cbv iota.
  rewrite urlparse_dir_path by done.
  cbv beta iota delta [u_scheme].
  rewrite urlparse_segment by done.
  cbv beta iota delta [u_scheme u_netloc u_path u_params u_query u_fragment].
  rewrite str_split_path by done.
  change ("" :: dirs ++ [file])%list with (("" :: dirs) ++ [file])%list.
  rewrite last_last, removelast_last.
  assert (str_empty file = false) as -> by (by rewrite Ef).
  assert (starts_with_slash new = false) as ->.
  { rewrite En. unfold starts_with_slash.
    by rewrite (seg_char_not_delim a "/"). }
  rewrite (str_split_no_sep "/" new) by (by apply good_segment_no_slash).
  change (negb ("" =? "") || negb (bool_decide ("" ∈ uses_relative)))
    with false.
  change (bool_decide ("" ∈ uses_netloc)) with true.
  change (str_empty "") with true.
  rewrite Hnew.
  cbv iota. simpl negb. simpl andb. cbv iota.
  rewrite filter_inner_good by done.
  rewrite last_last, Hd1, Hd2. simpl orb. cbv iota.
  rewrite resolve_segments_plain.
  2:{ constructor; [done|]. apply good_segments_not_dots.
      rewrite forallb_app, Hd. simpl. by rewrite Hn. }
  rewrite app_nil_l.
  change (("" :: dirs) ++ [new])%list with ("" :: (dirs ++ [new]))%list.
  rewrite str_join_dir_path, append_nil_l.
  assert (str_empty (dir_path (dirs ++ [new])) = false) as ->.
  { by destruct dirs. }
  reflexivity.
Qed.

Lemma splitext_last dirs file :
  good_segment file = true ->
  splitext_ext (dir_path (dirs ++ [file])) = splitext_ext file.
Proof.
  intros Hf. unfold splitext_ext. rewrite dir_path_app.
  simpl dir_path. rewrite append_nil_r.
  rewrite str_rpartition_app by (by apply good_segment_no_slash).
  by rewrite (str_rpartition_none "/" file)
    by (by apply good_segment_no_slash).
Qed.

(** X22. The audio URL that [get_video] derives from a fallback URL
    [https://host/dirs/file?query]: the scheme, the host and the
    directories are kept, the query is dropped, and the file name is
    replaced by [DASH_audio.mp4] when its extension is [.mp4] and by
    [audio] otherwise. *)
Theorem audio_url_of_any_file host dirs file query :
  str_forall seg_char host = true ->
  forallb good_segment dirs = true ->
  good_segment file = true ->
  str_forall (fun a => negb (unsafe_byte a)) query = true ->
  str_contains "#" query = false ->
  audio_url_of
    ("https://" +:+ host +:+ dir_path (dirs ++ [file]) +:+ "?" +:+ query)
  = inr ("https://" +:+ host
         +:+ dir_path (dirs ++ [audio_basename file])).
Proof.
  intros Hh Hd Hf Hq Hq'.
  assert (forallb good_segment (dirs ++ [file]) = true) as Hl.
  { rewrite forallb_app, Hd. simpl. by rewrite Hf. }
  assert ((dirs ++ [file])%list <> []) as Hne by (by destruct dirs).
  assert (good_segment (audio_basename file) = true) as Hb.
  { unfold audio_basename. by destruct (String.eqb _ _). }
  assert (forallb good_segment (dirs ++ [audio_basename file]) = true) as Hl'.
  { rewrite forallb_app, Hd. simpl. by rewrite Hb. }
  assert ((dirs ++ [audio_basename file])%list <> []) as Hne'
    by (by destruct dirs).
  unfold audio_url_of.
  rewrite urlsplit_https_dir_path by done.
  cbv beta iota delta [u_scheme u_netloc u_path].
  rewrite splitext_last by done.
  fold (audio_basename file).
  rewrite urljoin_replaces_last by done.
  unfold urlunsplit. cbv zeta.
  cbv beta iota delta [u_scheme u_netloc u_path u_query u_fragment].
  destruct (dir_path_one_slash _ Hne' Hl') as (-> & -> & ->).
  change (negb (str_empty "https") && bool_decide ("https" ∈ uses_netloc)
          && negb false) with true.
  rewrite orb_true_r. cbv iota.
  simpl negb. simpl andb. cbv iota.
  reflexivity.
Qed.

Lemma audio_url_of_any_file_witness :
  audio_url_of ("https://" +:+ "v.redd.it" +:+ dir_path (["abc123"] ++ ["HLS_540"])
                +:+ "?" +:+ "a=1&b=2")
  = inr ("https://" +:+ "v.redd.it"
         +:+ dir_path (["abc123"] ++ [audio_basename "HLS_540"])).
Proof.
  apply (audio_url_of_any_file "v.redd.it" ["abc123"] "HLS_540" "a=1&b=2");
    reflexivity.
Defined.

(** ** reddit.py: [_get_random_path] *)

(** X23. A path that [_get_random_path] returns does not exist: it is the
    candidate of the first random string whose candidate does not exist,
    the candidates of the strings before it exist, and each candidate
    tried has been looked up once. While every candidate exists the loop
    goes on. *)
Theorem get_random_path_fresh path_exists random_strings root ext s :
  (forall path s',
     _get_random_path path_exists random_strings root ext s
     = (Returns path, s') ->
     path_exists path = false
     /\ exists pre rand_str post,
          random_strings = (pre ++ rand_str :: post)%list
          /\ path = candidate root ext rand_str
          /\ Forall (fun r => path_exists (candidate root ext r) = true) pre
          /\ s' = add_log s
                    (map (fun r => EvExists (candidate root ext r))
                       (pre ++ [rand_str])))
  /\ (Forall (fun r => path_exists (candidate root ext r) = true)
        random_strings ->
      fst (_get_random_path path_exists random_strings root ext s)
      = Pending).
Proof.
  revert s. induction random_strings as [|r rest IH]; intros s.
  - split; [discriminate | done].
  - simpl. fold (candidate root ext r).
    unfold bind, emit. simpl.
    destruct (path_exists (candidate root ext r)) eqn:E; simpl.
    + split.
      * intros path s' Hrun.
        apply IH in Hrun as (Hp & pre & x & post & -> & -> & Hall & ->).
        split; [done|]. exists (r :: pre), x, post.
        repeat split; try done; [by constructor|].
        unfold add_log. simpl. by rewrite <- app_assoc.
      * intros Hall. apply IH. by inversion Hall.
    + split.
      * unfold ret. intros path s' [= <- <-]. split; [done|].
        exists [], r, rest. repeat split; try done.
      * intros Hall. inversion Hall; congruence.
Qed.

Lemma get_random_path_fresh_witness :
  (fun p => String.eqb p "out/aaaaaaaaaa.mp4") "out/bbbbbbbbbb.mp4" = false
  /\ exists pre rand_str post,
       ["aaaaaaaaaa"; "bbbbbbbbbb"; "cccccccccc"]
       = (pre ++ rand_str :: post)%list
       /\ "out/bbbbbbbbbb.mp4" = candidate "out" "mp4" rand_str
       /\ Forall (fun r => (fun p => String.eqb p "out/aaaaaaaaaa.mp4")
                             (candidate "out" "mp4" r) = true) pre
       /\ add_log state0 [EvExists "out/aaaaaaaaaa.mp4";
                          EvExists "out/bbbbbbbbbb.mp4"]
          = add_log state0
              (map (fun r => EvExists (candidate "out" "mp4" r))
                 (pre ++ [rand_str])).
Proof.
  apply (proj1 (get_random_path_fresh
                  (fun p => String.eqb p "out/aaaaaaaaaa.mp4")
                  ["aaaaaaaaaa"; "bbbbbbbbbb"; "cccccccccc"] "out" "mp4"
                  state0)).
  reflexivity.
Defined.
